(** * mpp-solar: device / transport / protocol binding and command pipeline

    A shallow embedding of [mppsolar/devices/device.py],
    [mppsolar/devices/jk24s.py], [mppsolar/devices/mppsolar.py] and of the
    transport interface of [mppsolar/io/baseio.py].

    Python objects are modelled by the values the pipeline really handles:
    scalar values ([atom]), response dictionaries ([gmap string _]) and raw
    byte strings.  Methods that can raise return a [result]; methods that
    talk to the protocol codec or to the transport run in a small
    state-and-exception monad [M] whose state is the outside world together
    with the trace of the calls made so far.  The [log.*] calls of the source
    are not modelled: they have no influence on any value computed. *)

From Stdlib.Strings Require Import Ascii Byte.
From stdpp Require Import base option list strings gmap fin_maps pretty.

(** ** Python values *)

(** Scalars that appear as command names, aliases, [show_raw] flags and as
    the fields of a response. *)
Inductive atom :=
| AStr (s : string)
| AInt (z : Z)
| ABool (b : bool)
| ANone.

Global Instance atom_eq_dec : EqDecision atom.
Proof. solve_decision. Defined.

Definition atom_to_sum (a : atom) : string + Z + bool + unit :=
  match a with
  | AStr s => inl (inl (inl s))
  | AInt z => inl (inl (inr z))
  | ABool b => inl (inr b)
  | ANone => inr tt
  end.

Definition atom_of_sum (x : string + Z + bool + unit) : atom :=
  match x with
  | inl (inl (inl s)) => AStr s
  | inl (inl (inr z)) => AInt z
  | inl (inr b) => ABool b
  | inr _ => ANone
  end.

Global Instance atom_countable : Countable atom.
Proof.
  refine (inj_countable' atom_to_sum atom_of_sum _).
  intros []; reflexivity.
Defined.

(** [str(x)], as used by the f-strings of the source. *)
Definition py_str (a : atom) : string :=
  match a with
  | AStr s => s
  | AInt z => pretty z
  | ABool true => "True"
  | ABool false => "False"
  | ANone => "None"
  end.

(** Dictionary keys are compared with [==]: [True] and [1] (and [False] and
    [0]) are one key. *)
Definition dict_key (a : atom) : atom :=
  match a with
  | ABool b => AInt (if b then 1 else 0)
  | _ => a
  end.

(** A Response: field name to [[value, unit]]. *)
Abbreviation Response := (gmap string (list atom)).

Definition bytes := list Byte.byte.

(** What a transport or a codec hands back: a dictionary or raw data. *)
Inductive value :=
| VDict (r : Response)
| VBytes (b : bytes).

(** ** Exceptions *)

Inductive exn :=
| AttributeError (msg : string)
| TypeError (msg : string)
| ModuleNotFoundError (msg : string)
| OtherError (msg : string).

Inductive result (A : Type) :=
| Ok (a : A)
| Raise (e : exn).
Arguments Ok {A} a.
Arguments Raise {A} e.

(** ** Strings *)

(** [sub in s] for two [str] operands. *)
Fixpoint str_in (sub s : string) : bool :=
  String.prefix sub s ||
  match s with
  | EmptyString => false
  | String _ s' => str_in sub s'
  end.

(** [str.lower()] on the ASCII range; other characters are left alone. *)
Definition lower_char (c : Ascii.ascii) : Ascii.ascii :=
  let n := Ascii.nat_of_ascii c in
  if (65 <=? n)%nat && (n <=? 90)%nat then Ascii.ascii_of_nat (n + 32) else c.

Fixpoint lower (s : string) : string :=
  match s with
  | EmptyString => EmptyString
  | String c s' => String (lower_char c) (lower s')
  end.

(** ** Transport classifier ([device.py], lines 7-66) *)

Definition PORT_TYPE_TEST : Z := 1.
Definition PORT_TYPE_USB : Z := 2.
Definition PORT_TYPE_ESP32 : Z := 4.
Definition PORT_TYPE_SERIAL : Z := 8.
Definition PORT_TYPE_JKBLE : Z := 16.

(** The locator is a [str] or [None] ([set_port] defaults it to [None]).
    Calling [.lower()] on [None] raises. *)
Definition none_lower : exn :=
  AttributeError "'NoneType' object has no attribute 'lower'".

Definition is_test_device (serial_device : option string) : result bool :=
  match serial_device with
  | None => Raise none_lower
  | Some s => Ok (str_in "test" (lower s))
  end.

(** [not serial_device] holds for [None] and for the empty string. *)
Definition is_directusb_device (serial_device : option string) : result bool :=
  match serial_device with
  | None => Ok false
  | Some "" => Ok false
  | Some s =>
      if str_in "hidraw" s then Ok true
      else if str_in "mppsolar" s then Ok true
      else Ok false
  end.

Definition is_ESP32_device (serial_device : option string) : result bool :=
  match serial_device with
  | None => Raise none_lower
  | Some s => Ok (str_in "esp" (lower s))
  end.

Definition is_JKBle_device (serial_device : option string) : result bool :=
  match serial_device with
  | None => Raise none_lower
  | Some s => Ok (str_in ":" (lower s))
  end.

Definition get_port_type (port : option string) : result Z :=
  match is_test_device port with
  | Raise e => Raise e
  | Ok true => Ok PORT_TYPE_TEST
  | Ok false =>
    match is_directusb_device port with
    | Raise e => Raise e
    | Ok true => Ok PORT_TYPE_USB
    | Ok false =>
      match is_ESP32_device port with
      | Raise e => Raise e
      | Ok true => Ok PORT_TYPE_ESP32
      | Ok false =>
        match is_JKBle_device port with
        | Raise e => Raise e
        | Ok true => Ok PORT_TYPE_JKBLE
        | Ok false => Ok PORT_TYPE_SERIAL
        end
      end
    end
  end.

(** ** The outside world: protocol codecs and transports

    The codecs ([mppsolar.protocols.*]) and the concrete transports
    ([mppsolar.io.*]) are collaborators of the pipeline.  A call to one of
    them transforms the outside world and either returns or raises. *)

Section Model.
Context {World Defn : Type}.

Record Protocol := {
  STATUS_COMMANDS : list string;
  SETTINGS_COMMANDS : list string;
  DEFAULT_COMMAND : string;
  get_full_command : atom → World → result bytes * World;
  get_command_defn : atom → World → result Defn * World;
  decode : bytes → atom → atom → World → result value * World
}.

(** A protocol class found in a module; calling it builds the codec. *)
Record ProtocolClass := { instantiate : result Protocol }.

(** A module, seen through [getattr]; [None] is [AttributeError]. *)
Definition PyModule := string → option ProtocolClass.

(** An argument of [send_and_receive]. *)
Inductive arg :=
| ArgAtom (a : atom)
| ArgBytes (b : bytes)
| ArgDefn (d : Defn)
| ArgProtocol (p : Protocol).

Inductive PortClass := TestIO | HIDRawIO | ESP32IO | JkBleIO | SerialIO.

Global Instance PortClass_eq_dec : EqDecision PortClass.
Proof. solve_decision. Defined.

(** A transport object: its class and its one method, applied to the
    positional arguments it is called with. *)
Record Port := {
  port_class : PortClass;
  send_and_receive : list arg → World → result value * World
}.

(** Calls that cross the boundary of the pipeline, with their outcome. *)
Inductive event :=
| EvGetFullCommand (command : atom) (out : result bytes)
| EvGetCommandDefn (command : atom) (out : result Defn)
| EvDecode (raw : bytes) (show_raw command : atom) (out : result value)
| EvSendAndReceive (args : list arg) (out : result value).

Definition is_decode (ev : event) : bool :=
  match ev with EvDecode _ _ _ _ => true | _ => false end.

(** The [show_raw] flag a call was given, if it was given one. *)
Definition event_show_raw (ev : event) : option atom :=
  match ev with
  | EvDecode _ show_raw _ _ => Some show_raw
  | EvSendAndReceive [ArgAtom _; ArgAtom show_raw; ArgProtocol _] _ => Some show_raw
  | _ => None
  end.

(** ** The monad of the pipeline *)

Record St := { world : World; trace : list event }.

Definition M (A : Type) : Type := St → result A * St.

Definition ret {A} (a : A) : M A := λ st, (Ok a, st).

Definition raise {A} (e : exn) : M A := λ st, (Raise e, st).

Definition bind {A B} (m : M A) (k : A → M B) : M B :=
  λ st, match m st with
        | (Ok a, st') => k a st'
        | (Raise e, st') => (Raise e, st')
        end.

(** An outside call: run on the world, recorded in the trace. *)
Definition call {A} (ev : result A → event) (f : World → result A * World) : M A :=
  λ st, let (r, w) := f (world st) in
        (r, {| world := w; trace := trace st ++ [ev r] |}).

End Model.

Arguments Protocol : clear implicits.
Arguments ProtocolClass : clear implicits.
Arguments PyModule : clear implicits.
Arguments arg : clear implicits.
Arguments Port : clear implicits.
Arguments event : clear implicits.
Arguments St : clear implicits.
Arguments M : clear implicits.

Notation "'do' x <- m ; k" := (bind m (λ x, k))
  (at level 10, x name, m at level 100, k at level 200, only parsing).

(** ** Devices ([device.py], [jk24s.py], [mppsolar.py]) *)

Section Devices.
Context {World Defn : Type}.

Inductive DeviceClass := jk24s | mppsolar.

Record Device := {
  device_class : DeviceClass;
  _name : string;
  _protocol : option (Protocol World Defn);
  _protocol_class : option (ProtocolClass World Defn);
  _port : option (Port World Defn)
}.

(** *** [AbstractDevice.set_protocol] *)

Definition unbind_protocol (self : Device) : Device :=
  {| device_class := device_class self; _name := _name self;
     _protocol := None; _protocol_class := None; _port := _port self |}.

Definition set_protocol_class (self : Device) (cls : ProtocolClass World Defn) : Device :=
  {| device_class := device_class self; _name := _name self;
     _protocol := _protocol self; _protocol_class := Some cls; _port := _port self |}.

Definition set_protocol_instance (self : Device) (p : Protocol World Defn) : Device :=
  {| device_class := device_class self; _name := _name self;
     _protocol := Some p; _protocol_class := _protocol_class self; _port := _port self |}.

(** [importlib.import_module], by full module name. *)
Context (import_module : string → result (PyModule World Defn)).

(** The method mutates [self] and returns [None] or raises: the result is
    paired with the device as the method leaves it. *)
Definition set_protocol (self : Device) (protocol : option string) : result unit * Device :=
  match protocol with
  | None => (Ok tt, unbind_protocol self)
  | Some protocol =>
    let protocol_id := lower protocol in
    match import_module ("mppsolar.protocols." +:+ protocol_id) with
    | Raise (ModuleNotFoundError _) => (Ok tt, unbind_protocol self)
    | Raise e => (Raise e, self)
    | Ok proto_module =>
      match proto_module protocol_id with
      | None => (Ok tt, unbind_protocol self)
      | Some cls =>
        let self := set_protocol_class self cls in
        match instantiate cls with
        | Raise e => (Raise e, self)
        | Ok p => (Ok tt, set_protocol_instance self p)
        end
      end
    end
  end.

(** The protocol name cannot be resolved: no module of that name, or a
    module without the name. *)
Definition unresolved (protocol : string) : Prop :=
  (∃ msg, import_module ("mppsolar.protocols." +:+ lower protocol)
            = Raise (ModuleNotFoundError msg)) ∨
  (∃ proto_module,
      import_module ("mppsolar.protocols." +:+ lower protocol) = Ok proto_module ∧
      proto_module (lower protocol) = None).

(** *** [run_command] of the two device classes *)

Definition no_protocol_error : value :=
  VDict {[ "ERROR" := [AStr "Attempted to run command with no protocol defined"; AStr ""] ]}.

Definition no_port_error (command : atom) : value :=
  VDict {[ "ERROR" :=
             [AStr ("No communications port defined - unable to run command " +:+ py_str command);
              AStr ""] ]}.

(** [self._port.send_and_receive( *args )] *)
Definition port_call (port : Port World Defn) (args : list (arg World Defn)) : M World Defn value :=
  call (EvSendAndReceive args) (send_and_receive port args).

Definition jk24s_run_command (self : Device) (command show_raw : atom) : M World Defn value :=
  match _protocol self with
  | None => ret no_protocol_error
  | Some protocol =>
    match _port self with
    | None => ret (no_port_error command)
    | Some port =>
      match port_class port with
      | JkBleIO =>
          port_call port [ArgAtom command; ArgAtom show_raw; ArgProtocol protocol]
      | cls =>
          do full_command <- call (EvGetFullCommand command) (get_full_command protocol command);
          do raw_response <-
            match cls with
            | TestIO =>
                do defn <- call (EvGetCommandDefn command) (get_command_defn protocol command);
                port_call port [ArgBytes full_command; ArgDefn defn]
            | _ => port_call port [ArgBytes full_command]
            end;
          match raw_response with
          | VDict _ => ret raw_response
          | VBytes raw =>
              call (EvDecode raw show_raw command) (decode protocol raw show_raw command)
          end
      end
    end
  end.

Definition mppsolar_run_command (self : Device) (command show_raw : atom) : M World Defn value :=
  match _protocol self with
  | None => ret no_protocol_error
  | Some protocol =>
    match _port self with
    | None => ret (no_port_error command)
    | Some port =>
        port_call port [ArgAtom command; ArgAtom show_raw; ArgProtocol protocol]
    end
  end.

(** [self.run_command(command, show_raw)], dispatched on the class. *)
Definition run_command (self : Device) (command show_raw : atom) : M World Defn value :=
  match device_class self with
  | jk24s => jk24s_run_command self command show_raw
  | mppsolar => mppsolar_run_command self command show_raw
  end.

(** [self.run_command( *args )]: the signature is
    [run_command(self, command, show_raw=False)]. *)
Definition apply_run_command (self : Device) (args : list atom) : M World Defn value :=
  match args with
  | [command] => run_command self command (ABool false)
  | [command; show_raw] => run_command self command show_raw
  | _ =>
      raise (TypeError ("run_command() takes from 2 to 3 positional arguments but "
                          +:+ pretty (S (length args)) +:+ " were given"))
  end.

(** *** [get_status] and [get_settings] *)

(** [data.update(v)]: a dictionary is merged over [data]; raw bytes are
    iterated as a sequence of pairs, which fails on the first byte. *)
Definition dict_update (data : Response) (v : value) : M World Defn Response :=
  match v with
  | VDict r => ret (r ∪ data)
  | VBytes [] => ret data
  | VBytes (_ :: _) =>
      raise (TypeError "cannot convert dictionary update sequence element #0 to a sequence")
  end.

(** [for command in commands: data.update(self.run_command(command))] *)
Fixpoint update_each (self : Device) (commands : list string) (data : Response)
  : M World Defn Response :=
  match commands with
  | [] => ret data
  | command :: rest =>
      do v <- run_command self (AStr command) (ABool false);
      do data <- dict_update data v;
      update_each self rest data
  end.

Definition none_attribute (attr : string) : exn :=
  AttributeError ("'NoneType' object has no attribute '" +:+ attr +:+ "'").

Definition jk24s_get_status (self : Device) (show_raw : atom) : M World Defn Response :=
  match _protocol self with
  | None => raise (none_attribute "STATUS_COMMANDS")
  | Some protocol => update_each self (STATUS_COMMANDS protocol) ∅
  end.

Definition jk24s_get_settings (self : Device) (show_raw : atom) : M World Defn Response :=
  match _protocol self with
  | None => raise (none_attribute "SETTINGS_COMMANDS")
  | Some protocol => update_each self (SETTINGS_COMMANDS protocol) ∅
  end.

Definition mppsolar_get_status (self : Device) (show_raw : atom) : M World Defn Response :=
  match _protocol self with
  | None => raise (none_attribute "STATUS_COMMANDS")
  | Some protocol => update_each self (STATUS_COMMANDS protocol) ∅
  end.

Definition mppsolar_get_settings (self : Device) (show_raw : atom) : M World Defn Response :=
  match _protocol self with
  | None => raise (none_attribute "SETTINGS_COMMANDS")
  | Some protocol => update_each self (SETTINGS_COMMANDS protocol) ∅
  end.

Definition get_status (self : Device) (show_raw : atom) : M World Defn Response :=
  match device_class self with
  | jk24s => jk24s_get_status self show_raw
  | mppsolar => mppsolar_get_status self show_raw
  end.

Definition get_settings (self : Device) (show_raw : atom) : M World Defn Response :=
  match device_class self with
  | jk24s => jk24s_get_settings self show_raw
  | mppsolar => mppsolar_get_settings self show_raw
  end.

(** *** [AbstractDevice.run_default_command] *)

Definition run_default_command (self : Device) (show_raw : atom) : M World Defn value :=
  match _protocol self with
  | None => raise (none_attribute "DEFAULT_COMMAND")
  | Some protocol => run_command self (AStr (DEFAULT_COMMAND protocol)) show_raw
  end.

(** *** [AbstractDevice.run_commands] *)

(** An entry of the batch: a scalar (a [str] among them), a tuple or a list. *)
Inductive entry :=
| EAtom (a : atom)
| ETuple (t : list atom)
| EList (l : list atom).

Definition unknown_format : value :=
  VDict {[ "ERROR" := [AStr "Unknown command format"; AStr "(Indexed from 0)"] ]}.

(** One turn of the loop body on entry [i]. *)
Definition run_commands_step (self : Device) (i : nat) (command : entry)
    (responses : gmap atom value) : M World Defn (gmap atom value) :=
  match command with
  | EAtom (AStr s) =>
      do r <- run_command self (AStr s) (ABool false);
      ret (<[AStr s := r]> responses)
  | ETuple [c0] =>
      do r <- run_command self c0 (ABool false);
      ret (<[dict_key c0 := r]> responses)
  | ETuple [c0; c1] =>
      do r <- run_command self c0 (ABool false);
      ret (<[dict_key c1 := r]> responses)
  | ETuple (c0 :: c1 :: rest) =>
      do r <- apply_run_command self (c0 :: rest);
      ret (<[dict_key c1 := r]> responses)
  | _ =>
      ret (<[AStr ("Command " +:+ pretty i) := unknown_format]> responses)
  end.

Fixpoint run_commands_from (self : Device) (i : nat) (commands : list entry)
    (responses : gmap atom value) : M World Defn (gmap atom value) :=
  match commands with
  | [] => ret responses
  | command :: rest =>
      do responses <- run_commands_step self i command responses;
      run_commands_from self (S i) rest responses
  end.

Definition run_commands (self : Device) (commands : list entry)
  : M World Defn (gmap atom value) :=
  run_commands_from self 0 commands ∅.

End Devices.

Arguments Device : clear implicits.

(** ** Reference descriptions of the batch operations

    These follow the wording of the specification and are compared with the
    loops above. *)

Section Reference.
Context {World Defn : Type}.

(** Run [f] on the elements of [l], in order, and collect the results. *)
Fixpoint mapM {A B} (f : A → M World Defn B) (l : list A) : M World Defn (list B) :=
  match l with
  | [] => ret []
  | x :: l =>
      do y <- f x;
      do ys <- mapM f l;
      ret (y :: ys)
  end.

(** The key an entry is filed under. *)
Definition entry_key (i : nat) (e : entry) : atom :=
  match e with
  | EAtom (AStr s) => AStr s
  | ETuple [c0] => dict_key c0
  | ETuple (_ :: alias :: _) => dict_key alias
  | _ => AStr ("Command " +:+ pretty i)
  end.

Definition batch_keys (commands : list entry) : list atom :=
  imap entry_key commands.

(** What is run for an entry. *)
Definition entry_value (self : Device World Defn) (e : entry) : M World Defn value :=
  match e with
  | EAtom (AStr s) => run_command self (AStr s) (ABool false)
  | ETuple [c0] => run_command self c0 (ABool false)
  | ETuple [c0; _] => run_command self c0 (ABool false)
  | ETuple (c0 :: _ :: extra) => apply_run_command self (c0 :: extra)
  | _ => ret unknown_format
  end.

(** File the results under their keys, the first entry first. *)
Definition file_results (commands : list entry) (vs : list value) : gmap atom value :=
  list_to_map (reverse (zip (batch_keys commands) vs)).

(** [self.run_command(command)]: the flag is left to its default. *)
Definition run_plain (self : Device World Defn) (command : string) : M World Defn value :=
  run_command self (AStr command) (ABool false).

(** File pairs into [responses], the first pair first. *)
Definition file_from (responses : gmap atom value) (kvs : list (atom * value))
  : gmap atom value :=
  foldl (λ m kv, <[kv.1 := kv.2]> m) responses kvs.

(** Merge the responses, the first one first: [merge_responses [r1; r2]]
    is [r2] laid over [r1]. *)
Definition merge_responses (rs : list Response) : Response :=
  foldl (λ data r, r ∪ data) ∅ rs.

(** [v] is the last value filed under [k] in [kvs]. *)
Definition last_write {V} (kvs : list (atom * V)) (k : atom) (v : V) : Prop :=
  ∃ j, kvs !! j = Some (k, v) ∧
       ∀ j' v', j < j' → kvs !! j' ≠ Some (k, v').

(** [x] is field [k] of the last response of [rs] that has a field [k]. *)
Definition last_field (rs : list Response) (k : string) (x : list atom) : Prop :=
  ∃ j r, rs !! j = Some r ∧ r !! k = Some x ∧
         ∀ j' r', j < j' → rs !! j' = Some r' → r' !! k = None.

(** Every call that [m] adds to the trace satisfies [Q]. *)
Definition emits {A} (Q : event World Defn → Prop) (m : M World Defn A) : Prop :=
  ∀ st out st', m st = (out, st') →
    ∃ evs, trace st' = trace st ++ evs ∧ Forall Q evs.

(** A call that was given a [show_raw] flag was given [flag]. *)
Definition flag_is (flag : atom) (ev : event World Defn) : Prop :=
  event_show_raw ev = None ∨ event_show_raw ev = Some flag.

End Reference.

(** ** Concrete collaborators used to run the model *)

Module Fixture.

(** The world counts the exchanges made with the hardware. *)
Definition QPI : bytes := [x51; x50; x49; xbe; xac; x0d].

Definition pi30 : Protocol nat string := {|
  STATUS_COMMANDS := ["QPIGS"; "Q1"];
  SETTINGS_COMMANDS := ["QPIRI"];
  DEFAULT_COMMAND := "QPI";
  get_full_command := λ _ w, (Ok QPI, w);
  get_command_defn := λ command w, (Ok (py_str command), w);
  decode := λ raw show_raw command w,
    (Ok (VDict {[ py_str command := [AStr "PI30"; AStr ""];
                  "mode" := [AStr (py_str command); AStr ""] ]}), w)
|}.

Definition io_error : Response :=
  {[ "ERROR" := [AStr "Serial command execution failed"; AStr ""] ]}.

(** A transport with the signature of [BaseIO.send_and_receive]: one
    positional argument, the full command; it echoes the command. *)
Definition serial_io : Port nat string := {|
  port_class := SerialIO;
  send_and_receive := λ args w,
    match args with
    | [ArgBytes full_command] => (Ok (VBytes full_command), S w)
    | _ => (Raise (TypeError "send_and_receive() takes 2 positional arguments"), w)
    end
|}.

(** The same transport with the line down: the error is reported in-band. *)
Definition broken_serial_io : Port nat string := {|
  port_class := SerialIO;
  send_and_receive := λ args w, (Ok (VDict io_error), S w)
|}.

Definition test_io : Port nat string := {|
  port_class := TestIO;
  send_and_receive := λ args w,
    match args with
    | [ArgBytes full_command; ArgDefn _] => (Ok (VBytes full_command), S w)
    | _ => (Raise (TypeError "send_and_receive() takes 3 positional arguments"), w)
    end
|}.

Definition device (cls : DeviceClass) (protocol : option (Protocol nat string))
    (port : option (Port nat string)) : Device nat string :=
  {| device_class := cls; _name := "unnamed"; _protocol := protocol;
     _protocol_class := None; _port := port |}.

Definition st0 : St nat string := {| world := 0; trace := [] |}.

Definition jk_serial : Device nat string := device jk24s (Some pi30) (Some serial_io).
Definition jk_broken : Device nat string := device jk24s (Some pi30) (Some broken_serial_io).
Definition mpp_serial : Device nat string := device mppsolar (Some pi30) (Some serial_io).

(** No module is installed. *)
Definition no_modules : string → result (PyModule nat string) :=
  λ name, Raise (ModuleNotFoundError ("No module named '" +:+ name +:+ "'")).

(** Only [mppsolar.protocols.pi30] is installed, and it defines no name. *)
Definition empty_pi30_module : string → result (PyModule nat string) :=
  λ name, if decide (name = "mppsolar.protocols.pi30") then Ok (λ _, None)
          else no_modules name.

(** The batch of the specification, and the batch of the docstring of
    [run_commands]. *)
Definition batch_4tuple : list entry :=
  [EAtom (AStr "A"); ETuple [AStr "B"; AStr "alias"];
   ETuple [AStr "C"; AStr "alias2"; AInt 1; AInt 2]].

Definition batch_3tuple : list entry :=
  [EAtom (AStr "A"); ETuple [AStr "B"; AStr "alias"];
   ETuple [AStr "C"; AStr "alias2"; ABool true]].

End Fixture.

(** ** The rest of [device.py]: [set_port], [list_commands], [__init__] *)

Section Binding.
Context {World Defn : Type}.

(** The one method of a transport object. *)
Definition SendAndReceive : Type :=
  list (arg World Defn) → World → result value * World.

(** The constructors of the transport classes ([mppsolar.io.testio] and the
    like), by the arguments [set_port] calls them with: [device_path] and,
    for the serial one, [serial_baud].  A constructor works on the outside
    world and returns the object or raises. *)
Record Transports := {
  new_TestIO : World → result SendAndReceive * World;
  new_HIDRawIO : option string → World → result SendAndReceive * World;
  new_ESP32IO : option string → World → result SendAndReceive * World;
  new_JkBleIO : option string → World → result SendAndReceive * World;
  new_SerialIO : option string → atom → World → result SendAndReceive * World
}.

Definition with_port (self : Device World Defn) (port : option (Port World Defn))
  : Device World Defn :=
  {| device_class := device_class self; _name := _name self;
     _protocol := _protocol self; _protocol_class := _protocol_class self;
     _port := port |}.

(** [self._port = Cls(...)]: nothing is assigned when the constructor
    raises. *)
Definition bind_port (cls : PortClass) (new : World → result SendAndReceive * World)
    (self : Device World Defn) (w : World) : result unit * Device World Defn * World :=
  match new w with
  | (Ok f, w') =>
      (Ok tt, with_port self (Some {| port_class := cls; send_and_receive := f |}), w')
  | (Raise e, w') => (Raise e, self, w')
  end.

(** [AbstractDevice.set_port(port, baud)] *)
Definition set_port (io : Transports) (self : Device World Defn)
    (port : option string) (baud : atom) (w : World)
  : result unit * Device World Defn * World :=
  match get_port_type port with
  | Raise e => (Raise e, self, w)
  | Ok port_type =>
      if (port_type =? PORT_TYPE_TEST)%Z then
        bind_port TestIO (new_TestIO io) self w
      else if (port_type =? PORT_TYPE_USB)%Z then
        bind_port HIDRawIO (new_HIDRawIO io port) self w
      else if (port_type =? PORT_TYPE_ESP32)%Z then
        bind_port ESP32IO (new_ESP32IO io port) self w
      else if (port_type =? PORT_TYPE_JKBLE)%Z then
        bind_port JkBleIO (new_JkBleIO io port) self w
      else if (port_type =? PORT_TYPE_SERIAL)%Z then
        bind_port SerialIO (new_SerialIO io port baud) self w
      else (Ok tt, with_port self None, w)
  end.

(** The transport class [set_port] builds for a locator kind. *)
Definition class_of_kind (port_type : Z) : option PortClass :=
  if (port_type =? PORT_TYPE_TEST)%Z then Some TestIO
  else if (port_type =? PORT_TYPE_USB)%Z then Some HIDRawIO
  else if (port_type =? PORT_TYPE_ESP32)%Z then Some ESP32IO
  else if (port_type =? PORT_TYPE_JKBLE)%Z then Some JkBleIO
  else if (port_type =? PORT_TYPE_SERIAL)%Z then Some SerialIO
  else None.

(** *** [AbstractDevice.list_commands] *)

(** The [COMMANDS] attribute of a codec: command name to definition, in the
    order of the dictionary (its keys are distinct).  A definition is a
    dictionary of its own; [list_commands] reads its "description". *)
Context (COMMANDS : Protocol World Defn → list (string * gmap string atom)).

Definition key_error (k : string) : exn := OtherError ("KeyError: '" +:+ k +:+ "'").

Fixpoint list_commands_loop (commands : list (string * gmap string atom))
    (res : Response) : result Response :=
  match commands with
  | [] => Ok res
  | (command, defn) :: rest =>
      match defn !! "description" with
      | None => Raise (key_error "description")
      | Some description =>
          list_commands_loop rest (<[command := [description; AStr ""]]> res)
      end
  end.

Definition list_commands (self : Device World Defn) : result Response :=
  match _protocol self with
  | None =>
      Ok {[ "ERROR" := [AStr "Attempted to list commands with no protocol defined";
                        AStr ""] ]}
  | Some protocol => list_commands_loop (COMMANDS protocol) ∅
  end.

(** *** [jk24s.__init__] and [mppsolar.__init__] *)

(** Keyword arguments, in the order they were given. *)
Definition kwargs : Type := list (string * atom).

(** [kw[k]] *)
Fixpoint kw_get (k : string) (kw : kwargs) : option atom :=
  match kw with
  | [] => None
  | (k', v) :: kw => if decide (k' = k) then Some v else kw_get k kw
  end.

(** The first keyword that is not a parameter of the function called with
    [**kw]; such a call raises [TypeError]. *)
Fixpoint unexpected_keyword (params : list string) (kw : kwargs) : option string :=
  match kw with
  | [] => None
  | (k, _) :: kw => if decide (k ∈ params) then unexpected_keyword params kw else Some k
  end.

Definition unexpected (fname k : string) : exn :=
  TypeError (fname +:+ "() got an unexpected keyword argument '" +:+ k +:+ "'").

(** The Python type name of a scalar. *)
Definition type_name (a : atom) : string :=
  match a with
  | AStr _ => "str" | AInt _ => "int" | ABool _ => "bool" | ANone => "NoneType"
  end.

(** A value used as a text with [.lower()]: a [str] or [None] goes on as
    it is ([None] fails later, in the callee); a number has no [lower]. *)
Definition as_text (a : atom) : result (option string) :=
  match a with
  | AStr s => Ok (Some s)
  | ANone => Ok None
  | _ => Raise (AttributeError
                  ("'" +:+ type_name a +:+ "' object has no attribute 'lower'"))
  end.

(** [self.set_port( **kw )], for [set_port(self, port=None, baud=2400)] *)
Definition set_port_kw (io : Transports) (self : Device World Defn) (kw : kwargs)
    (w : World) : result unit * Device World Defn * World :=
  match unexpected_keyword ["port"; "baud"] kw with
  | Some k => (Raise (unexpected "set_port" k), self, w)
  | None =>
      match as_text (default ANone (kw_get "port" kw)) with
      | Raise e => (Raise e, self, w)
      | Ok port => set_port io self port (default (AInt 2400) (kw_get "baud" kw)) w
      end
  end.

(** [self.set_protocol( **kw )], for [set_protocol(self, protocol=None)] *)
Definition set_protocol_kw (import_module : string → result (PyModule World Defn))
    (self : Device World Defn) (kw : kwargs) : result unit * Device World Defn :=
  match unexpected_keyword ["protocol"] kw with
  | Some k => (Raise (unexpected "set_protocol" k), self)
  | None =>
      match as_text (default ANone (kw_get "protocol" kw)) with
      | Raise e => (Raise e, self)
      | Ok protocol => set_protocol import_module self protocol
      end
  end.

(** [AbstractDevice.__init__] *)
Definition new_device (cls : DeviceClass) (name : string) : Device World Defn :=
  {| device_class := cls; _name := name; _protocol := None;
     _protocol_class := None; _port := None |}.

(** The body shared by the two classes.  [_name] is only ever formatted
    into a text by the source; the model keeps that text. *)
Definition device_init (cls : DeviceClass) (io : Transports)
    (import_module : string → result (PyModule World Defn))
    (kw : kwargs) (w : World) : result (Device World Defn) * World :=
  match kw_get "name" kw with
  | None => (Raise (key_error "name"), w)
  | Some name =>
      let self := new_device cls (py_str name) in
      match set_port_kw io self kw w with
      | (Raise e, _, w) => (Raise e, w)
      | (Ok _, self, w) =>
          match set_protocol_kw import_module self kw with
          | (Raise e, _) => (Raise e, w)
          | (Ok _, self) => (Ok self, w)
          end
      end
  end.

Definition jk24s_init := device_init jk24s.
Definition mppsolar_init := device_init mppsolar.

End Binding.

Arguments Transports : clear implicits.
Arguments SendAndReceive : clear implicits.

(** ** Vocabulary of the further properties *)

Section Vocabulary.
Context {World Defn : Type}.

(** [P] holds of every character of [s]. *)
Fixpoint all_chars (P : Ascii.ascii → bool) (s : string) : bool :=
  match s with
  | EmptyString => true
  | String c s => P c && all_chars P s
  end.

(** A character of a MAC address: a hexadecimal digit or a colon. *)
Definition mac_char (c : Ascii.ascii) : bool :=
  let n := Ascii.nat_of_ascii c in
  ((48 <=? n) && (n <=? 58) || (65 <=? n) && (n <=? 70) || (97 <=? n) && (n <=? 102))%nat.

(** The locator kind by the order of the rules. *)
Definition kind_by_rules (s : string) : Z :=
  if str_in "test" (lower s) then PORT_TYPE_TEST
  else if str_in "hidraw" s || str_in "mppsolar" s then PORT_TYPE_USB
  else if str_in "esp" (lower s) then PORT_TYPE_ESP32
  else if str_in ":" s then PORT_TYPE_JKBLE
  else PORT_TYPE_SERIAL.

Definition is_send (ev : event World Defn) : bool :=
  match ev with EvSendAndReceive _ _ => true | _ => false end.

(** The exception an outside call ended with, if it raised. *)
Definition event_raised (ev : event World Defn) : option exn :=
  match ev with
  | EvGetFullCommand _ (Raise e) | EvGetCommandDefn _ (Raise e)
  | EvDecode _ _ _ (Raise e) | EvSendAndReceive _ (Raise e) => Some e
  | _ => None
  end.

(** The same device as an object of the other class. *)
Definition as_class (cls : DeviceClass) (self : Device World Defn) : Device World Defn :=
  {| device_class := cls; _name := _name self; _protocol := _protocol self;
     _protocol_class := _protocol_class self; _port := _port self |}.

(** A batch entry [run_command] can be called for: a tuple has at most
    three elements. *)
Definition well_formed (e : entry) : bool :=
  match e with
  | ETuple (_ :: _ :: _ :: _ :: _) => false
  | _ => true
  end.

(** An ERROR Response made by the pipeline itself. *)
Definition own_error (v : value) : Prop :=
  v = no_protocol_error ∨ v = unknown_format.

(** The protocol binding is consistent: nothing is bound, or the codec
    bound is the one its class builds. *)
Definition consistent_binding (self : Device World Defn) : Prop :=
  (_protocol self = None ∧ _protocol_class self = None) ∨
  (∃ cls p, _protocol_class self = Some cls ∧ _protocol self = Some p ∧
            instantiate cls = Ok p).

End Vocabulary.

(** Further collaborators used to run the model. *)
Module Bench.

Definition echo : SendAndReceive nat string :=
  λ args w, match args with
            | [ArgBytes full_command] => (Ok (VBytes full_command), S w)
            | _ => (Raise (TypeError "send_and_receive() takes 2 positional arguments"), w)
            end.

Definition ble : SendAndReceive nat string :=
  λ args w, (Ok (VDict {[ "cells" := [AInt 16; AStr ""] ]}), S w).

(** Every constructor succeeds; opening a device counts as an exchange. *)
Definition io : Transports nat string := {|
  new_TestIO := λ w, (Ok echo, w);
  new_HIDRawIO := λ _ w, (Ok echo, S w);
  new_ESP32IO := λ _ w, (Ok echo, S w);
  new_JkBleIO := λ _ w, (Ok ble, S w);
  new_SerialIO := λ _ _ w, (Ok echo, S w)
|}.

Definition pi30_class : ProtocolClass nat string := {| instantiate := Ok Fixture.pi30 |}.

Definition broken_class : ProtocolClass nat string :=
  {| instantiate := Raise (TypeError "__init__() got an unexpected keyword argument") |}.

(** [mppsolar.protocols.pi30] defines [pi30]; [mppsolar.protocols.pi18]
    defines a [pi18] whose constructor raises. *)
Definition modules : string → result (PyModule nat string) :=
  λ name,
    if decide (name = "mppsolar.protocols.pi30") then
      Ok (λ attr, if decide (attr = "pi30") then Some pi30_class else None)
    else if decide (name = "mppsolar.protocols.pi18") then
      Ok (λ attr, if decide (attr = "pi18") then Some broken_class else None)
    else Fixture.no_modules name.

Definition registry : Protocol nat string → list (string * gmap string atom) :=
  λ _, [("QPI", {[ "name" := AStr "QPI"; "description" := AStr "Protocol ID inquiry" ]});
        ("QID", {[ "name" := AStr "QID"; "description" := AStr "Device Serial Number inquiry" ]})].

Definition bad_registry : Protocol nat string → list (string * gmap string atom) :=
  λ _, [("QPI", {[ "name" := AStr "QPI"; "description" := AStr "Protocol ID inquiry" ]});
        ("QID", {[ "name" := AStr "QID" ]})].

Definition blank : Device nat string := new_device jk24s "unnamed".

Definition jk_no_port : Device nat string := Fixture.device jk24s (Some Fixture.pi30) None.

Definition bytes_io : Port nat string := {|
  port_class := SerialIO;
  send_and_receive := λ args w, (Ok (VBytes Fixture.QPI), S w)
|}.

Definition mpp_bytes : Device nat string :=
  Fixture.device mppsolar (Some Fixture.pi30) (Some bytes_io).

Definition launch : kwargs :=
  [("name", AStr "inverter"); ("port", AStr "/dev/ttyUSB0"); ("protocol", AStr "PI30")].

End Bench.

(** Case analysis on the outcome of every outside call made in [H]. *)
Ltac run_calls H :=
  repeat match type of H with
    | context [get_full_command ?p ?c ?w] =>
        destruct (get_full_command p c w) as [[?|?] ?] eqn:?; cbn in H
    | context [get_command_defn ?p ?c ?w] =>
        destruct (get_command_defn p c w) as [[?|?] ?] eqn:?; cbn in H
    | context [send_and_receive ?p ?a ?w] =>
        destruct (send_and_receive p a w) as [[[?|?]|?] ?] eqn:?; cbn in H
    | context [decode ?p ?r ?s ?c ?w] =>
        destruct (decode p r s c w) as [[?|?] ?] eqn:?; cbn in H
    end.

(** * Properties *)

(** ** Transport classifier *)

Example classify_mac : get_port_type (Some "3c:a5:09:0a:85:79") = Ok PORT_TYPE_JKBLE.
Proof. reflexivity. Qed.

Example classify_tty : get_port_type (Some "/dev/ttyUSB0") = Ok PORT_TYPE_SERIAL.
Proof. reflexivity. Qed.

Example classify_TEST : get_port_type (Some "/dev/TeSt:0") = Ok PORT_TYPE_TEST.
Proof. reflexivity. Qed.

Lemma lower_char_colon (c : Ascii.ascii) :
  lower_char c = ":"%char ↔ c = ":"%char.
Proof.
  destruct c as [[] [] [] [] [] [] [] []]; vm_compute; split; congruence.
Qed.

Lemma prefix_empty (s : string) : String.prefix "" s = true.
Proof. destruct s; reflexivity. Qed.

Lemma str_in_colon_lower (s : string) : str_in ":" (lower s) = str_in ":" s.
Proof.
  induction s as [|c s IH]; [reflexivity|].
  cbn [lower str_in String.prefix]. rewrite IH, !prefix_empty.
  destruct (Ascii.ascii_dec ":" (lower_char c)) as [E|E],
           (Ascii.ascii_dec ":" c) as [E'|E']; try reflexivity.
  - exfalso. apply E'. symmetry. apply lower_char_colon. symmetry. exact E.
  - exfalso. apply E. symmetry. apply lower_char_colon. symmetry. exact E'.
Qed.

(** C7, as amended.  A locator that contains a colon and matches none of
    the three rules that are tried first (it does not contain "test" or
    "esp" in any letter case, and contains neither "hidraw" nor "mppsolar")
    is classified as BLE. *)
Theorem C7_colon_is_ble (s : string) :
  str_in ":" s = true →
  str_in "test" (lower s) = false →
  str_in "hidraw" s = false →
  str_in "mppsolar" s = false →
  str_in "esp" (lower s) = false →
  get_port_type (Some s) = Ok PORT_TYPE_JKBLE.
Proof.
  intros Hcolon Htest Hhid Hmpp Hesp.
  unfold get_port_type, is_test_device, is_directusb_device,
    is_ESP32_device, is_JKBle_device.
  rewrite Htest, Hhid, Hmpp, Hesp, str_in_colon_lower, Hcolon.
  destruct s; [discriminate Hcolon | reflexivity].
Qed.

Lemma C7_colon_is_ble_witness :
  get_port_type (Some "3c:a5:09:0a:85:79") = Ok PORT_TYPE_JKBLE.
Proof. apply C7_colon_is_ble; reflexivity. Defined.

(** C7 as stated fails: this locator contains a colon and does not match
    the Test rule, and it is classified as ESP32, the rule tried before the
    colon rule. *)
Lemma C7_counterexample :
  str_in ":" "esp32.local:8888" = true ∧
  str_in "test" (lower "esp32.local:8888") = false ∧
  get_port_type (Some "esp32.local:8888") = Ok PORT_TYPE_ESP32 ∧
  ¬ (∀ s : string,
       str_in ":" s = true → str_in "test" (lower s) = false →
       get_port_type (Some s) = Ok PORT_TYPE_JKBLE).
Proof.
  repeat split.
  intros H. specialize (H "esp32.local:8888" eq_refl eq_refl). discriminate H.
Qed.

(** C8.  The empty locator is classified as Serial; the null locator makes
    the first rule raise [AttributeError], before the guard on a false
    locator in [is_directusb_device] is reached. *)
Theorem C8_empty_and_null_locator :
  get_port_type (Some "") = Ok PORT_TYPE_SERIAL ∧
  is_directusb_device None = Ok false ∧
  get_port_type None = Raise none_lower.
Proof. repeat split. Qed.

(** ** Single commands *)

Section SingleCommand.
Context {World Defn : Type}.
Implicit Types (self : Device World Defn) (st : St World Defn).
Implicit Types (command show_raw : atom).

Lemma error_responses_differ command : no_protocol_error ≠ no_port_error command.
Proof.
  unfold no_protocol_error, no_port_error. intros H.
  apply (f_equal (λ v, match v with VDict r => r !! "ERROR" | VBytes _ => None end)) in H.
  rewrite !lookup_singleton_eq in H. discriminate H.
Qed.

Lemma run_command_no_protocol self command show_raw st :
  _protocol self = None →
  run_command self command show_raw st = (Ok no_protocol_error, st).
Proof.
  intros H. unfold run_command, jk24s_run_command, mppsolar_run_command.
  rewrite H. destruct (device_class self); reflexivity.
Qed.

Lemma run_command_no_port self command show_raw st :
  is_Some (_protocol self) → _port self = None →
  run_command self command show_raw st = (Ok (no_port_error command), st).
Proof.
  intros [p Hp] H. unfold run_command, jk24s_run_command, mppsolar_run_command.
  rewrite Hp, H. destruct (device_class self); reflexivity.
Qed.

(** C1.  With no protocol bound, [run_command] returns the "no protocol"
    ERROR Response, whatever the transport binding is; with a protocol but
    no transport it returns the "no communications port" ERROR Response.
    In both cases the state is returned as it was given: nothing was sent
    to the transport and the codec was not called.  The two Responses
    differ. *)
Theorem C1_unbound_device_fails_fast self command show_raw st :
  (_protocol self = None →
   run_command self command show_raw st =
     (Ok (VDict {[ "ERROR" :=
            [AStr "Attempted to run command with no protocol defined"; AStr ""] ]}),
      st)) ∧
  (is_Some (_protocol self) → _port self = None →
   run_command self command show_raw st =
     (Ok (VDict {[ "ERROR" :=
            [AStr ("No communications port defined - unable to run command "
                     +:+ py_str command); AStr ""] ]}),
      st)) ∧
  no_protocol_error ≠ no_port_error command.
Proof.
  split; [|split].
  - apply run_command_no_protocol.
  - apply run_command_no_port.
  - apply error_responses_differ.
Qed.

(** C9.  [run_default_command] reads [DEFAULT_COMMAND] from the protocol
    before [run_command] is entered: with no protocol bound it raises
    [AttributeError], where [run_command] on the same device returns the
    ERROR Response. *)
Theorem C9_run_default_command_unbound
    (cls : DeviceClass) (name : string) (pc : option (ProtocolClass World Defn))
    (port : option (Port World Defn)) show_raw st :
  let self := {| device_class := cls; _name := name; _protocol := None;
                 _protocol_class := pc; _port := port |} in
  run_default_command self show_raw st
    = (Raise (AttributeError "'NoneType' object has no attribute 'DEFAULT_COMMAND'"), st) ∧
  ∀ command, run_command self command show_raw st = (Ok no_protocol_error, st).
Proof.
  split; [reflexivity|]. intros command. destruct cls; reflexivity.
Qed.

End SingleCommand.

Lemma C1_unbound_device_fails_fast_witness :
  run_command (Fixture.device jk24s None (Some Fixture.serial_io))
      (AStr "QPI") (ABool true) Fixture.st0
    = (Ok no_protocol_error, Fixture.st0) ∧
  run_command (Fixture.device mppsolar (Some Fixture.pi30) None)
      (AStr "QPI") (ABool true) Fixture.st0
    = (Ok (no_port_error (AStr "QPI")), Fixture.st0).
Proof.
  split.
  - apply (C1_unbound_device_fails_fast
             (Fixture.device jk24s None (Some Fixture.serial_io))).
    reflexivity.
  - apply (C1_unbound_device_fails_fast
             (Fixture.device mppsolar (Some Fixture.pi30) None)).
    + eexists. reflexivity.
    + reflexivity.
Defined.

(** ** Protocol resolver *)

Section Resolver.
Context {World Defn : Type}.
Context (import_module : string → result (PyModule World Defn)).

(** C4.  When the module of the protocol cannot be found, or is found and
    does not define the lower-cased name, [set_protocol] returns normally
    and leaves both [_protocol] and [_protocol_class] cleared; [run_command]
    on the device then returns the "no protocol" ERROR Response. *)
Theorem C4_unresolved_protocol_unbinds
    (self : Device World Defn) (protocol : string) :
  unresolved import_module protocol →
  ∃ self', set_protocol import_module self (Some protocol) = (Ok tt, self') ∧
           _protocol self' = None ∧
           _protocol_class self' = None ∧
           _port self' = _port self ∧
           ∀ command show_raw st,
             run_command self' command show_raw st
               = (Ok (VDict {[ "ERROR" :=
                       [AStr "Attempted to run command with no protocol defined";
                        AStr ""] ]}), st).
Proof.
  intros H. exists (unbind_protocol self).
  split; [|split; [reflexivity|split; [reflexivity|split; [reflexivity|]]]].
  - unfold set_protocol.
    destruct H as [[msg ->] | [proto_module [-> ->]]]; reflexivity.
  - intros. apply run_command_no_protocol. reflexivity.
Qed.

End Resolver.

Lemma C4_unresolved_protocol_unbinds_witness :
  (∃ self', set_protocol Fixture.no_modules
              (Fixture.device jk24s (Some Fixture.pi30) (Some Fixture.serial_io))
              (Some "PI99") = (Ok tt, self') ∧ _protocol self' = None) ∧
  (∃ self', set_protocol Fixture.empty_pi30_module
              (Fixture.device mppsolar (Some Fixture.pi30) (Some Fixture.serial_io))
              (Some "PI30") = (Ok tt, self') ∧ _protocol self' = None).
Proof.
  split.
  - destruct (C4_unresolved_protocol_unbinds Fixture.no_modules
                (Fixture.device jk24s (Some Fixture.pi30) (Some Fixture.serial_io))
                "PI99") as [self' [H1 [H2 _]]].
    + left. eexists. reflexivity.
    + exists self'. split; assumption.
  - destruct (C4_unresolved_protocol_unbinds Fixture.empty_pi30_module
                (Fixture.device mppsolar (Some Fixture.pi30) (Some Fixture.serial_io))
                "PI30") as [self' [H1 [H2 _]]].
    + right. eexists. split; reflexivity.
    + exists self'. split; assumption.
Defined.

(** ** Bound devices: the two execution strategies *)

Section BoundDevice.
Context {World Defn : Type}.
Implicit Types (self : Device World Defn) (st : St World Defn).
Implicit Types (p : Protocol World Defn) (port : Port World Defn).
Implicit Types (command show_raw : atom) (ev : event World Defn).

Lemma send_event_inj (a a' : list (arg World Defn)) (o o' : result value) :
  EvSendAndReceive a o = EvSendAndReceive a' o' → a = a' ∧ o = o'.
Proof.
  intros H. split.
  - apply (f_equal (λ ev, match ev with EvSendAndReceive x _ => x | _ => [] end)) in H.
    exact H.
  - apply (f_equal (λ ev, match ev with EvSendAndReceive _ x => x | _ => o end)) in H.
    exact H.
Qed.

(** On a [jk24s] device bound to a serial, USB or network transport,
    [run_command] encodes, sends, and decodes what came back. *)
Lemma jk24s_encode_send_decode self p port command show_raw st
    full w1 raw w2 out w3 :
  device_class self = jk24s →
  _protocol self = Some p → _port self = Some port →
  port_class port ≠ JkBleIO → port_class port ≠ TestIO →
  get_full_command p command (world st) = (Ok full, w1) →
  send_and_receive port [ArgBytes full] w1 = (Ok (VBytes raw), w2) →
  decode p raw show_raw command w2 = (out, w3) →
  run_command self command show_raw st
    = (out,
       {| world := w3;
          trace := trace st ++
            [EvGetFullCommand command (Ok full);
             EvSendAndReceive [ArgBytes full] (Ok (VBytes raw));
             EvDecode raw show_raw command out] |}).
Proof.
  intros Hc Hp Hport Hble Htest Hfull Hsend Hdec.
  unfold run_command, jk24s_run_command. rewrite Hc, Hp, Hport.
  destruct (port_class port); try congruence;
    unfold bind, port_call, call; rewrite Hfull; cbn;
    rewrite Hsend; cbn; rewrite Hdec; cbn; rewrite <- !app_assoc; reflexivity.
Qed.

(** The same with the test loopback, which is also handed the definition
    of the command. *)
Lemma jk24s_encode_send_decode_test self p port command show_raw st
    full w1 defn w2 raw w3 out w4 :
  device_class self = jk24s →
  _protocol self = Some p → _port self = Some port →
  port_class port = TestIO →
  get_full_command p command (world st) = (Ok full, w1) →
  get_command_defn p command w1 = (Ok defn, w2) →
  send_and_receive port [ArgBytes full; ArgDefn defn] w2 = (Ok (VBytes raw), w3) →
  decode p raw show_raw command w3 = (out, w4) →
  run_command self command show_raw st
    = (out,
       {| world := w4;
          trace := trace st ++
            [EvGetFullCommand command (Ok full);
             EvGetCommandDefn command (Ok defn);
             EvSendAndReceive [ArgBytes full; ArgDefn defn] (Ok (VBytes raw));
             EvDecode raw show_raw command out] |}).
Proof.
  intros Hc Hp Hport Htest Hfull Hdefn Hsend Hdec.
  unfold run_command, jk24s_run_command. rewrite Hc, Hp, Hport, Htest.
  unfold bind, port_call, call. rewrite Hfull; cbn. rewrite Hdefn; cbn.
  rewrite Hsend; cbn. rewrite Hdec; cbn. rewrite <- !app_assoc. reflexivity.
Qed.

(** On a [mppsolar] device every transport is handed the command name, the
    flag and the codec, and its answer is the answer of [run_command]. *)
Lemma mppsolar_forwards self p port command show_raw st out w1 :
  device_class self = mppsolar →
  _protocol self = Some p → _port self = Some port →
  send_and_receive port [ArgAtom command; ArgAtom show_raw; ArgProtocol p] (world st)
    = (out, w1) →
  run_command self command show_raw st
    = (out,
       {| world := w1;
          trace := trace st ++
            [EvSendAndReceive [ArgAtom command; ArgAtom show_raw; ArgProtocol p] out] |}).
Proof.
  intros Hc Hp Hport Hsend.
  unfold run_command, mppsolar_run_command. rewrite Hc, Hp, Hport.
  unfold port_call, call. rewrite Hsend. reflexivity.
Qed.

(** C5.  On a device bound to a protocol and to a transport other than the
    BLE one, if a [send_and_receive] made by [run_command] returned a
    dictionary, that call was the last one made, no [decode] was made, and
    [run_command] returned that dictionary. *)
Theorem C5_inband_error_returned_unmodified
    self p port command show_raw st out st' evs args (r : Response) :
  _protocol self = Some p → _port self = Some port →
  port_class port ≠ JkBleIO →
  run_command self command show_raw st = (out, st') →
  trace st' = trace st ++ evs →
  EvSendAndReceive args (Ok (VDict r)) ∈ evs →
  out = Ok (VDict r) ∧
  (∃ evs0, evs = evs0 ++ [EvSendAndReceive args (Ok (VDict r))]) ∧
  Forall (λ ev, is_decode ev = false) evs.
Proof.
  intros Hp Hport Hble Hrun Htrace Hin.
  unfold run_command, jk24s_run_command, mppsolar_run_command,
    bind, port_call, call, ret in Hrun.
  rewrite Hp, Hport in Hrun.
  destruct (device_class self), (port_class port); try congruence;
    run_calls Hrun;
    inversion Hrun; subst; cbn in Htrace;
    rewrite <- ?app_assoc in Htrace; apply app_inv_head in Htrace; subst evs;
    repeat (apply elem_of_cons in Hin as [Hin|Hin]);
    try (apply elem_of_nil in Hin; contradiction);
    try discriminate Hin;
    apply send_event_inj in Hin as [-> Hout]; try discriminate Hout;
    rewrite Hout;
    (split; [reflexivity|split;
      [first [ by exists [] | by eexists [_] | by eexists [_; _] ]
      | repeat constructor]]).
Qed.

End BoundDevice.

Lemma C5_inband_error_returned_unmodified_witness :
  fst (run_command Fixture.jk_broken (AStr "QPI") (ABool true) Fixture.st0)
    = Ok (VDict Fixture.io_error) ∧
  Forall (λ ev, is_decode ev = false)
    (trace (snd (run_command Fixture.jk_broken (AStr "QPI") (ABool true) Fixture.st0))).
Proof.
  set (run := run_command Fixture.jk_broken (AStr "QPI") (ABool true) Fixture.st0).
  destruct (C5_inband_error_returned_unmodified
              Fixture.jk_broken Fixture.pi30 Fixture.broken_serial_io (AStr "QPI") (ABool true)
              Fixture.st0 (fst run) (snd run) (trace (snd run))
              [ArgBytes Fixture.QPI] Fixture.io_error) as [H1 [_ H3]].
  - reflexivity.
  - reflexivity.
  - discriminate.
  - reflexivity.
  - reflexivity.
  - right. left.
  - split; assumption.
Defined.

(** C2.  A [mppsolar] device bound to a codec and to a transport makes one
    outside call, whatever the transport is: [send_and_receive] with the
    command name, the flag and the codec.  It does not ask the codec for the
    full command and does not decode.  A serial transport with the signature
    of [BaseIO] rejects that call, where the [jk24s] device on the same
    bindings encodes, sends the payload and decodes. *)
Theorem C2_mppsolar_device_bypasses_codec :
  (∀ (World Defn : Type) (name : string) (pc : option (ProtocolClass World Defn))
     (p : Protocol World Defn) (port : Port World Defn)
     (command show_raw : atom) (st : St World Defn),
     let self := {| device_class := mppsolar; _name := name; _protocol := Some p;
                    _protocol_class := pc; _port := Some port |} in
     trace (snd (run_command self command show_raw st))
       = trace st ++
           [EvSendAndReceive [ArgAtom command; ArgAtom show_raw; ArgProtocol p]
              (fst (run_command self command show_raw st))])
  ∧
  run_command Fixture.mpp_serial (AStr "QPI") (ABool false) Fixture.st0
    = (Raise (TypeError "send_and_receive() takes 2 positional arguments"),
       {| world := 0;
          trace := [EvSendAndReceive
                      [ArgAtom (AStr "QPI"); ArgAtom (ABool false);
                       ArgProtocol Fixture.pi30]
                      (Raise (TypeError "send_and_receive() takes 2 positional arguments"))] |})
  ∧
  run_command Fixture.jk_serial (AStr "QPI") (ABool false) Fixture.st0
    = (Ok (VDict {[ "QPI" := [AStr "PI30"; AStr ""]; "mode" := [AStr "QPI"; AStr ""] ]}),
       {| world := 1;
          trace := [EvGetFullCommand (AStr "QPI") (Ok Fixture.QPI);
                    EvSendAndReceive [ArgBytes Fixture.QPI] (Ok (VBytes Fixture.QPI));
                    EvDecode Fixture.QPI (ABool false) (AStr "QPI")
                      (Ok (VDict {[ "QPI" := [AStr "PI30"; AStr ""];
                                    "mode" := [AStr "QPI"; AStr ""] ]}))] |}).
Proof.
  split; [|split; reflexivity].
  intros World Defn name pc p port command show_raw st self.
  unfold run_command, mppsolar_run_command, port_call, call. cbn.
  destruct (send_and_receive port _ (world st)) as [out w]. reflexivity.
Qed.

(** ** Batches *)

Section Batch.
Context {World Defn : Type}.
Implicit Types (self : Device World Defn) (st : St World Defn).
Implicit Types (commands : list entry) (vs : list value).

Lemma mapM_length {A B} (f : A → M World Defn B) (l : list A) st ys st' :
  mapM f l st = (Ok ys, st') → length ys = length l.
Proof.
  revert st ys st'. induction l as [|x l IH]; intros st ys st' H.
  - inversion H. reflexivity.
  - cbn in H. unfold bind in H.
    destruct (f x st) as [[y|e] st1]; [|discriminate H].
    destruct (mapM f l st1) as [[ys'|e] st2] eqn:E; [|discriminate H].
    inversion H; subst. cbn. f_equal. eapply IH, E.
Qed.

(** The loop body runs the entry and files the result under its key. *)
Lemma run_commands_step_files self i (e : entry) (responses : gmap atom value) st :
  run_commands_step self i e responses st
    = (do v <- entry_value self e; ret (<[entry_key i e := v]> responses)) st.
Proof.
  destruct e as [[s|z|b|]|t|l]; try reflexivity.
  destruct t as [|c0 [|c1 [|x rest]]]; reflexivity.
Qed.

Lemma run_commands_from_files self commands : ∀ i (responses : gmap atom value) st,
  run_commands_from self i commands responses st
    = match mapM (entry_value self) commands st with
      | (Ok vs, st') =>
          (Ok (file_from responses
                 (zip (imap (λ j, entry_key (i + j)) commands) vs)), st')
      | (Raise e, st') => (Raise e, st')
      end.
Proof.
  induction commands as [|e commands IH]; intros i responses st.
  - reflexivity.
  - cbn [run_commands_from mapM]. unfold bind at 1.
    rewrite run_commands_step_files. unfold bind, ret.
    destruct (entry_value self e st) as [[v|ex] st1]; [|reflexivity].
    rewrite IH.
    destruct (mapM (entry_value self) commands st1) as [[vs|ex] st2]; [|reflexivity].
    cbn. rewrite Nat.add_0_r. do 4 f_equal.
    apply imap_ext. intros j x _. cbn. f_equal. lia.
Qed.

Lemma file_from_list_to_map (kvs : list (atom * value)) : ∀ responses,
  file_from responses kvs = list_to_map (reverse kvs) ∪ responses.
Proof.
  induction kvs as [|[k v] kvs IH]; intros responses.
  - cbn. by rewrite (left_id_L ∅ (∪)).
  - rewrite reverse_cons, list_to_map_app, list_to_map_cons, list_to_map_nil.
    unfold file_from in *. cbn [foldl fst snd]. rewrite IH.
    rewrite insert_empty, <- (assoc_L (∪)), <- insert_union_singleton_l.
    reflexivity.
Qed.

Lemma lookup_last_write {V} (kvs : list (atom * V)) k v :
  (list_to_map (reverse kvs) : gmap atom V) !! k = Some v ↔ last_write kvs k v.
Proof.
  revert v. induction kvs as [|[k0 v0] kvs IH] using rev_ind; intros v.
  - cbn. rewrite lookup_empty. split; [discriminate|].
    intros [j [H _]]. rewrite lookup_nil in H. discriminate H.
  - rewrite reverse_app. cbn [reverse rev_append app list_to_map foldr uncurry].
    change (rev_append kvs []) with (reverse kvs).
    destruct (decide (k0 = k)) as [->|Hne].
    + rewrite lookup_insert_eq. split.
      * intros [= ->]. exists (length kvs). split.
        -- rewrite lookup_app_r, Nat.sub_diag by lia. reflexivity.
        -- intros j' v' Hlt Hj'. apply lookup_lt_Some in Hj'.
           rewrite length_app in Hj'. cbn in Hj'. lia.
      * intros [j [Hj Hlast]].
        destruct (decide (j = length kvs)) as [->|Hj'].
        -- rewrite lookup_app_r, Nat.sub_diag in Hj by lia. cbn in Hj |- *. congruence.
        -- exfalso. apply (Hlast (length kvs) v0).
           ++ apply lookup_lt_Some in Hj. rewrite length_app in Hj. cbn in Hj. lia.
           ++ rewrite lookup_app_r, Nat.sub_diag by lia. reflexivity.
    + rewrite lookup_insert_ne by exact Hne. rewrite IH. split.
      * intros [j [Hj Hlast]]. exists j. split.
        -- rewrite lookup_app_l; [exact Hj|]. by apply lookup_lt_Some in Hj.
        -- intros j' v' Hlt Hj'.
           destruct (decide (j' < length kvs)) as [Hin|Hout].
           ++ rewrite lookup_app_l in Hj' by exact Hin. by apply (Hlast j' v').
           ++ rewrite lookup_app_r in Hj' by lia.
              destruct (j' - length kvs) as [|n]; cbn in Hj'; by simplify_eq.
      * intros [j [Hj Hlast]].
        assert (j < length kvs) as Hin.
        { destruct (decide (j < length kvs)) as [Hin|Hout]; [exact Hin|].
          rewrite lookup_app_r in Hj by lia.
          destruct (j - length kvs) as [|n]; cbn in Hj; by simplify_eq. }
        exists j. split.
        -- rewrite lookup_app_l in Hj by exact Hin. exact Hj.
        -- intros j' v' Hlt Hj'. apply (Hlast j' v' Hlt).
           rewrite lookup_app_l; [exact Hj'|]. by apply lookup_lt_Some in Hj'.
Qed.

Lemma dom_file_results commands vs :
  length vs = length commands →
  dom (file_results commands vs) = list_to_set (batch_keys commands).
Proof.
  intros Hlen. unfold file_results. rewrite dom_list_to_map_L.
  rewrite fmap_reverse, fst_zip.
  - apply set_eq. intros k. rewrite !elem_of_list_to_set, elem_of_reverse. reflexivity.
  - unfold batch_keys. rewrite length_imap. lia.
Qed.

(** C3, as amended.  [run_commands] runs the entries in the given order
    and files each result under the key of its entry, a later result
    replacing an earlier one under the same key; every entry is filed when
    no [run_command] raises.  A string and a 1-tuple are filed under the
    name, longer tuples under their second element, anything else under
    "Command i" with the "Unknown command format" ERROR Response.  A
    3-tuple passes its third element as [show_raw]; a longer tuple makes
    the call of [run_command] raise [TypeError], since [run_command] takes
    one argument after the name.  The batch
    ["A", ("B","alias"), ("C","alias2",True)] yields exactly the keys "A",
    "alias" and "alias2". *)
Theorem C3_run_commands_files_in_order self commands st :
  run_commands self commands st
    = match mapM (entry_value self) commands st with
      | (Ok vs, st') => (Ok (file_results commands vs), st')
      | (Raise e, st') => (Raise e, st')
      end ∧
  (∀ vs k v, file_results commands vs !! k = Some v
             ↔ last_write (zip (batch_keys commands) vs) k v) ∧
  (∀ m st', run_commands self commands st = (Ok m, st') →
            dom m = list_to_set (batch_keys commands)) ∧
  (∀ i (s name alias : string) (flag : atom) (z : Z) (l : list atom),
      entry_key i (EAtom (AStr s)) = AStr s ∧
      entry_key i (ETuple [AStr name]) = AStr name ∧
      entry_key i (ETuple [AStr name; AStr alias]) = AStr alias ∧
      entry_key i (ETuple [AStr name; AStr alias; flag]) = AStr alias ∧
      entry_key i (ETuple []) = AStr ("Command " +:+ pretty i) ∧
      entry_key i (EAtom (AInt z)) = AStr ("Command " +:+ pretty i) ∧
      entry_key i (EList l) = AStr ("Command " +:+ pretty i) ∧
      entry_value self (EAtom (AInt z)) = ret unknown_format ∧
      entry_value self (EList l) = ret unknown_format ∧
      entry_value self (EAtom (AStr s)) = run_command self (AStr s) (ABool false) ∧
      entry_value self (ETuple [AStr name]) = run_command self (AStr name) (ABool false) ∧
      entry_value self (ETuple [AStr name; AStr alias])
        = run_command self (AStr name) (ABool false) ∧
      entry_value self (ETuple [AStr name; AStr alias; flag])
        = run_command self (AStr name) flag ∧
      entry_value self (ETuple [])
        = ret (VDict {[ "ERROR" := [AStr "Unknown command format";
                                    AStr "(Indexed from 0)"] ]})) ∧
  (∀ c0 alias x y rest st0,
      entry_value self (ETuple (c0 :: alias :: x :: y :: rest)) st0
        = (Raise (TypeError ("run_command() takes from 2 to 3 positional arguments but "
                               +:+ pretty (4 + length rest) +:+ " were given")), st0)) ∧
  (∀ m st', run_commands self Fixture.batch_3tuple st = (Ok m, st') →
            dom m = {[AStr "A"; AStr "alias"; AStr "alias2"]}).
Proof.
  assert (∀ cs s, run_commands self cs s
    = match mapM (entry_value self) cs s with
      | (Ok vs, st') => (Ok (file_results cs vs), st')
      | (Raise e, st') => (Raise e, st')
      end) as Heq.
  { intros cs s. unfold run_commands. rewrite run_commands_from_files.
    destruct (mapM (entry_value self) cs s) as [[vs|e] st']; [|reflexivity].
    rewrite file_from_list_to_map, (right_id_L ∅ (∪)). reflexivity. }
  assert (∀ cs s m st', run_commands self cs s = (Ok m, st') →
            dom m = list_to_set (batch_keys cs)) as Hdom.
  { intros cs s m st' H. rewrite Heq in H.
    destruct (mapM (entry_value self) cs s) as [[vs|e] st1] eqn:E; [|discriminate H].
    inversion H; subst. apply dom_file_results. eapply mapM_length, E. }
  split; [apply Heq|]. split; [|split; [|split; [|split]]].
  - intros vs k v. unfold file_results. apply lookup_last_write.
  - apply Hdom.
  - intros. repeat split.
  - intros. reflexivity.
  - intros m st' H. rewrite (Hdom _ _ _ _ H). cbn. set_solver.
Qed.

End Batch.

Lemma C3_run_commands_files_in_order_witness :
  ∃ m st',
    run_commands Fixture.jk_serial Fixture.batch_3tuple Fixture.st0 = (Ok m, st') ∧
    dom m = {[AStr "A"; AStr "alias"; AStr "alias2"]}.
Proof.
  eexists _, _. split; [reflexivity|].
  eapply (C3_run_commands_files_in_order
            Fixture.jk_serial Fixture.batch_3tuple Fixture.st0).
  reflexivity.
Defined.

(** C3 as stated fails on its own example: the 4-tuple ("C","alias2",1,2)
    makes [run_commands] call [run_command("C", 1, 2)], which raises
    [TypeError] after the first two entries have run; no mapping is
    returned. *)
Lemma C3_counterexample :
  fst (run_commands Fixture.jk_serial Fixture.batch_4tuple Fixture.st0)
    = Raise (TypeError
        "run_command() takes from 2 to 3 positional arguments but 4 were given") ∧
  world (snd (run_commands Fixture.jk_serial Fixture.batch_4tuple Fixture.st0)) = 2 ∧
  ¬ ∃ m st',
      run_commands Fixture.jk_serial Fixture.batch_4tuple Fixture.st0 = (Ok m, st') ∧
      dom m = {[AStr "A"; AStr "alias"; AStr "alias2"]}.
Proof.
  split; [reflexivity|]. split; [reflexivity|].
  intros [m [st' [H _]]].
  apply (f_equal fst) in H. cbn [fst] in H.
  assert (fst (run_commands Fixture.jk_serial Fixture.batch_4tuple Fixture.st0)
          = Raise (TypeError
              "run_command() takes from 2 to 3 positional arguments but 4 were given"))
    as E by reflexivity.
  rewrite E in H. discriminate H.
Qed.

(** ** Status and settings *)

Section Status.
Context {World Defn : Type}.
Implicit Types (self : Device World Defn) (st : St World Defn).
Implicit Types (p : Protocol World Defn) (rs : list Response).

Lemma update_each_merges self (commands : list string) : ∀ (data : Response) st rs st',
  mapM (run_plain self) commands st = (Ok (VDict <$> rs), st') →
  update_each self commands data st = (Ok (foldl (λ d r, r ∪ d) data rs), st').
Proof.
  induction commands as [|c commands IH]; intros data st rs st' H.
  - cbn in H. inversion H as [[Hrs Hst]].
    destruct rs; [reflexivity | discriminate Hrs].
  - cbn [mapM update_each] in *. unfold bind, run_plain in *.
    destruct (run_command self (AStr c) (ABool false) st) as [[v|e] st1];
      [|discriminate H].
    fold (run_plain self) in *.
    destruct (mapM (run_plain self) commands st1) as [[vs|e] st2] eqn:E;
      [|discriminate H].
    inversion H as [[Hvs Hst]]. subst st2.
    destruct rs as [|r rs]; [discriminate Hvs|].
    cbn in Hvs. inversion Hvs as [[Hv Hrest]]. subst v vs.
    cbn. apply IH. exact E.
Qed.

Lemma merge_responses_snoc rs (r : Response) :
  merge_responses (rs ++ [r]) = r ∪ merge_responses rs.
Proof. unfold merge_responses. rewrite foldl_app. reflexivity. Qed.

Lemma lookup_merge_responses rs (k : string) (x : list atom) :
  merge_responses rs !! k = Some x ↔ last_field rs k x.
Proof.
  revert x. induction rs as [|r0 rs IH] using rev_ind; intros x.
  - unfold merge_responses. cbn. rewrite lookup_empty. split; [discriminate|].
    intros [j [r [H _]]]. rewrite lookup_nil in H. discriminate H.
  - rewrite merge_responses_snoc, lookup_union_Some_raw, IH. split.
    + intros [Hr0 | [Hnone [j [r [Hj [Hk Hlast]]]]]].
      * exists (length rs), r0. split; [|split].
        -- rewrite lookup_app_r, Nat.sub_diag by lia. reflexivity.
        -- exact Hr0.
        -- intros j' r' Hlt Hj'. apply lookup_lt_Some in Hj'.
           rewrite length_app in Hj'. cbn in Hj'. lia.
      * exists j, r. split; [|split].
        -- rewrite lookup_app_l; [exact Hj|]. by apply lookup_lt_Some in Hj.
        -- exact Hk.
        -- intros j' r' Hlt Hj'.
           destruct (decide (j' < length rs)) as [Hin|Hout].
           ++ rewrite lookup_app_l in Hj' by exact Hin. by apply (Hlast j' r').
           ++ rewrite lookup_app_r in Hj' by lia.
              destruct (j' - length rs) as [|n]; cbn in Hj'; by simplify_eq.
    + intros [j [r [Hj [Hk Hlast]]]].
      destruct (decide (j < length rs)) as [Hin|Hout].
      * right. split.
        -- apply (Hlast (length rs) r0); [exact Hin|].
           rewrite lookup_app_r, Nat.sub_diag by lia. reflexivity.
        -- rewrite lookup_app_l in Hj by exact Hin.
           exists j, r. split; [exact Hj|split; [exact Hk|]].
           intros j' r' Hlt Hj'. apply (Hlast j' r' Hlt).
           rewrite lookup_app_l; [exact Hj'|]. by apply lookup_lt_Some in Hj'.
      * left. rewrite lookup_app_r in Hj by lia.
        destruct (j - length rs) as [|n]; cbn in Hj; by simplify_eq.
Qed.

(** C6.  With a protocol bound, [get_status] (and [get_settings]) does what
    running the commands of [STATUS_COMMANDS] ([SETTINGS_COMMANDS]) one
    after the other in the order of the list does, and when these runs
    return the Responses [rs] it returns their merge, in which a field has
    the value given by the last Response that has the field. *)
Theorem C6_get_status_merges_in_order self p (show_raw : atom) st rs st' :
  _protocol self = Some p →
  (mapM (run_plain self) (STATUS_COMMANDS p) st = (Ok (VDict <$> rs), st') →
   get_status self show_raw st = (Ok (merge_responses rs), st') ∧
   length rs = length (STATUS_COMMANDS p)) ∧
  (mapM (run_plain self) (SETTINGS_COMMANDS p) st = (Ok (VDict <$> rs), st') →
   get_settings self show_raw st = (Ok (merge_responses rs), st') ∧
   length rs = length (SETTINGS_COMMANDS p)) ∧
  (∀ k x, merge_responses rs !! k = Some x ↔ last_field rs k x).
Proof.
  intros Hp. split; [|split].
  - intros H. split.
    + unfold get_status, jk24s_get_status, mppsolar_get_status. rewrite Hp.
      destruct (device_class self); apply update_each_merges, H.
    + apply mapM_length in H. rewrite length_fmap in H. exact H.
  - intros H. split.
    + unfold get_settings, jk24s_get_settings, mppsolar_get_settings. rewrite Hp.
      destruct (device_class self); apply update_each_merges, H.
    + apply mapM_length in H. rewrite length_fmap in H. exact H.
  - apply lookup_merge_responses.
Qed.

End Status.

Lemma C6_get_status_merges_in_order_witness :
  fst (get_status Fixture.jk_serial (ABool true) Fixture.st0)
    = Ok ({[ "QPIGS" := [AStr "PI30"; AStr ""];
             "Q1" := [AStr "PI30"; AStr ""];
             "mode" := [AStr "Q1"; AStr ""] ]} : Response).
Proof.
  pose (r1 := {[ "QPIGS" := [AStr "PI30"; AStr ""];
                 "mode" := [AStr "QPIGS"; AStr ""] ]} : Response).
  pose (r2 := {[ "Q1" := [AStr "PI30"; AStr ""];
                 "mode" := [AStr "Q1"; AStr ""] ]} : Response).
  destruct (C6_get_status_merges_in_order Fixture.jk_serial Fixture.pi30 (ABool true)
              Fixture.st0 [r1; r2]
              (snd (mapM (run_plain Fixture.jk_serial) ["QPIGS"; "Q1"] Fixture.st0))
              eq_refl) as [H _].
  destruct (H eq_refl) as [-> _]. reflexivity.
Defined.

(** ** The [show_raw] argument of [get_status] and [get_settings] *)

Section ShowRaw.
Context {World Defn : Type}.
Implicit Types (self : Device World Defn) (st : St World Defn).
Implicit Types (Q : event World Defn → Prop).

Lemma emits_ret {A} Q (a : A) : emits Q (ret a).
Proof.
  intros st out st' H. inversion H; subst. exists []. split.
  - by rewrite app_nil_r.
  - constructor.
Qed.

Lemma emits_raise {A} Q (e : exn) : emits Q (raise (A:=A) e).
Proof.
  intros st out st' H. inversion H; subst. exists []. split.
  - by rewrite app_nil_r.
  - constructor.
Qed.

Lemma emits_call {A} Q (ev : result A → event World Defn) f :
  (∀ r, Q (ev r)) → emits Q (call ev f).
Proof.
  intros HQ st out st' H. unfold call in H.
  destruct (f (world st)) as [r w]. inversion H; subst.
  exists [ev out]. split; [reflexivity|]. repeat constructor. apply HQ.
Qed.

Lemma emits_bind {A B} Q (m : M World Defn A) (k : A → M World Defn B) :
  emits Q m → (∀ a, emits Q (k a)) → emits Q (bind m k).
Proof.
  intros Hm Hk st out st' H. unfold bind in H.
  destruct (m st) as [[a|e] st1] eqn:E.
  - destruct (Hm _ _ _ E) as [evs1 [T1 F1]].
    destruct (Hk a _ _ _ H) as [evs2 [T2 F2]].
    exists (evs1 ++ evs2). split.
    + rewrite T2, T1, app_assoc. reflexivity.
    + apply Forall_app. split; assumption.
  - inversion H; subst. apply (Hm _ _ _ E).
Qed.

(** Every call [run_command] makes that takes a flag is given its
    [show_raw]. *)
Lemma run_command_flag self (command show_raw : atom) :
  emits (flag_is show_raw) (run_command self command show_raw).
Proof.
  unfold run_command, jk24s_run_command, mppsolar_run_command, port_call.
  destruct (device_class self), (_protocol self) as [p|], (_port self) as [port|];
    try apply emits_ret.
  - destruct (port_class port);
      repeat first
        [ apply emits_bind; [|intros ?]
        | apply emits_call; intros ?; (by left) || (by right)
        | apply emits_ret
        | match goal with |- emits _ (match ?v with _ => _ end) => destruct v end ].
  - apply emits_call. intros ?. by right.
Qed.

Lemma update_each_flag self (commands : list string) : ∀ data : Response,
  emits (flag_is (ABool false)) (update_each self commands data).
Proof.
  induction commands as [|c commands IH]; intros data; cbn [update_each].
  - apply emits_ret.
  - apply emits_bind; [apply run_command_flag|]. intros v.
    apply emits_bind; [|intros ?; apply IH].
    destruct v as [r|[|b raw]]; [apply emits_ret | apply emits_ret | apply emits_raise].
Qed.

(** C10.  [get_status] and [get_settings] do not depend on their [show_raw]
    argument: two calls in the same state give the same result and the same
    state, and every call to the transport or the codec that takes a flag is
    given [False]. *)
Theorem C10_status_ignores_show_raw self (a b : atom) st :
  get_status self a st = get_status self b st ∧
  get_settings self a st = get_settings self b st ∧
  emits (flag_is (ABool false)) (get_status self a) ∧
  emits (flag_is (ABool false)) (get_settings self a).
Proof.
  split; [reflexivity|]. split; [reflexivity|].
  unfold get_status, get_settings, jk24s_get_status, jk24s_get_settings,
    mppsolar_get_status, mppsolar_get_settings.
  split; destruct (device_class self), (_protocol self);
    first [apply update_each_flag | apply emits_raise].
Qed.

End ShowRaw.

(** * Further properties of the code *)

(** ** The classifier on every string *)

Lemma classify_by_rules (s : string) :
  get_port_type (Some s) = Ok (kind_by_rules s).
Proof.
  unfold get_port_type, kind_by_rules, is_test_device, is_directusb_device,
    is_ESP32_device, is_JKBle_device.
  rewrite str_in_colon_lower.
  destruct (str_in "test" (lower s)) eqn:Ht; [reflexivity|].
  destruct s as [|c s]; [reflexivity|].
  destruct (str_in "hidraw" (String c s)); [reflexivity|].
  destruct (str_in "mppsolar" (String c s)); [reflexivity|].
  cbn [orb].
  destruct (str_in "esp" (lower (String c s))); [reflexivity|].
  destruct (str_in ":" (String c s)); reflexivity.
Qed.

(** X1.  On a string [get_port_type] never raises, and the kind it returns
    is decided by the first rule that matches, in the order Test, direct
    USB, ESP32, BLE.  So a locator with "test" in any letter case is Test
    whatever else it contains, and a locator is Serial exactly when no rule
    matches. *)
Theorem X1_classifier_rule_order (s : string) :
  get_port_type (Some s) = Ok (kind_by_rules s) ∧
  (str_in "test" (lower s) = true → get_port_type (Some s) = Ok PORT_TYPE_TEST) ∧
  (get_port_type (Some s) = Ok PORT_TYPE_SERIAL ↔
     str_in "test" (lower s) = false ∧ str_in "hidraw" s = false ∧
     str_in "mppsolar" s = false ∧ str_in "esp" (lower s) = false ∧
     str_in ":" s = false).
Proof.
  rewrite classify_by_rules. unfold kind_by_rules.
  split; [reflexivity|]. split.
  - intros ->. reflexivity.
  - destruct (str_in "test" (lower s)), (str_in "hidraw" s), (str_in "mppsolar" s),
      (str_in "esp" (lower s)), (str_in ":" s); cbn;
      split; try discriminate; try (intros (?&?&?&?&?); discriminate);
      repeat split.
Qed.

Lemma X1_classifier_rule_order_witness :
  get_port_type (Some "/dev/hidraw0:TEST:esp") = Ok PORT_TYPE_TEST.
Proof. apply X1_classifier_rule_order. reflexivity. Defined.

Lemma prefix_all_chars (Q : Ascii.ascii → bool) (sub : string) : ∀ s : string,
  String.prefix sub s = true → all_chars Q s = true → all_chars Q sub = true.
Proof.
  induction sub as [|c sub IH]; intros s Hpre Hall; [reflexivity|].
  destruct s as [|b s]; [discriminate Hpre|].
  cbn [String.prefix] in Hpre. destruct (Ascii.ascii_dec c b) as [->|_]; [|discriminate Hpre].
  cbn [all_chars] in *. apply andb_true_iff in Hall as [Hb Hs].
  rewrite Hb. cbn. apply (IH s Hpre Hs).
Qed.

(** A text whose characters all satisfy [Q] contains no text that has a
    character outside [Q]. *)
Lemma str_in_all_chars (Q : Ascii.ascii → bool) (sub s : string) :
  all_chars Q s = true → all_chars Q sub = false → str_in sub s = false.
Proof.
  intros Hall Hsub. induction s as [|b s IH].
  - cbn [str_in]. rewrite orb_false_r.
    destruct (String.prefix sub "") eqn:E; [|reflexivity].
    rewrite (prefix_all_chars Q sub "" E Hall) in Hsub. discriminate Hsub.
  - cbn [str_in].
    destruct (String.prefix sub (String b s)) eqn:E.
    + rewrite (prefix_all_chars Q sub _ E Hall) in Hsub. discriminate Hsub.
    + cbn [all_chars] in Hall. apply andb_true_iff in Hall as [_ Hs].
      cbn. apply IH, Hs.
Qed.

Lemma mac_char_lower (c : Ascii.ascii) :
  mac_char c = true → mac_char (lower_char c) = true.
Proof. destruct c as [[] [] [] [] [] [] [] []]; vm_compute; congruence. Qed.

Lemma all_chars_mac_lower (s : string) :
  all_chars mac_char s = true → all_chars mac_char (lower s) = true.
Proof.
  induction s as [|b s IH]; [reflexivity|].
  cbn [all_chars lower]. rewrite !andb_true_iff. intros [Hb Hs].
  split; [apply mac_char_lower, Hb | apply IH, Hs].
Qed.

Lemma mac_kind (s : string) :
  all_chars mac_char s = true → str_in ":" s = true →
  kind_by_rules s = PORT_TYPE_JKBLE.
Proof.
  intros Hmac Hcolon. unfold kind_by_rules.
  pose proof (all_chars_mac_lower s Hmac) as Hlow.
  rewrite (str_in_all_chars mac_char "test" (lower s) Hlow eq_refl).
  rewrite (str_in_all_chars mac_char "hidraw" s Hmac eq_refl).
  rewrite (str_in_all_chars mac_char "mppsolar" s Hmac eq_refl).
  rewrite (str_in_all_chars mac_char "esp" (lower s) Hlow eq_refl).
  rewrite Hcolon. reflexivity.
Qed.

(** X2.  A locator written with hexadecimal digits and colons only, and
    with at least one colon, such as a MAC address in either letter case,
    is classified as BLE. *)
Theorem X2_mac_address_is_ble (s : string) :
  all_chars mac_char s = true →
  str_in ":" s = true →
  get_port_type (Some s) = Ok PORT_TYPE_JKBLE.
Proof.
  intros Hmac Hcolon. rewrite classify_by_rules, (mac_kind s Hmac Hcolon). reflexivity.
Qed.

Lemma X2_mac_address_is_ble_witness :
  get_port_type (Some "3C:A5:09:0A:85:79") = Ok PORT_TYPE_JKBLE.
Proof. apply X2_mac_address_is_ble; reflexivity. Defined.

(** ** [set_protocol] on every outcome *)

Lemma lower_char_idempotent (c : Ascii.ascii) : lower_char (lower_char c) = lower_char c.
Proof. destruct c as [[] [] [] [] [] [] [] []]; reflexivity. Qed.

Lemma lower_idempotent (s : string) : lower (lower s) = lower s.
Proof.
  induction s as [|c s IH]; [reflexivity|].
  cbn [lower]. rewrite lower_char_idempotent, IH. reflexivity.
Qed.

Section SetProtocol.
Context {World Defn : Type}.
Context (import_module : string → result (PyModule World Defn)).
Implicit Types (self : Device World Defn).

(** X3.  Whatever path [set_protocol] takes (unbinding, binding, failing
    lookup, raising), it leaves the class, the name and the transport of the
    device as they were. *)
Theorem X3_set_protocol_keeps_transport self (protocol : option string) :
  device_class (set_protocol import_module self protocol).2 = device_class self ∧
  _name (set_protocol import_module self protocol).2 = _name self ∧
  _port (set_protocol import_module self protocol).2 = _port self.
Proof.
  unfold set_protocol.
  destruct protocol as [name|]; [|repeat split].
  destruct (import_module ("mppsolar.protocols." +:+ lower name))
    as [proto_module|[]]; try (repeat split; fail).
  destruct (proto_module (lower name)) as [cls|]; [|repeat split].
  destruct (instantiate cls); repeat split.
Qed.

(** X4.  [set_protocol] is idempotent: calling it again with the same name
    gives the same outcome and leaves the device as the first call left
    it. *)
Theorem X4_set_protocol_idempotent self (protocol : option string) :
  set_protocol import_module (set_protocol import_module self protocol).2 protocol
    = set_protocol import_module self protocol.
Proof.
  unfold set_protocol.
  destruct protocol as [name|]; [|reflexivity].
  destruct (import_module ("mppsolar.protocols." +:+ lower name))
    as [proto_module|[]]; try reflexivity.
  destruct (proto_module (lower name)) as [cls|]; [|reflexivity].
  destruct (instantiate cls) as [p|e]; reflexivity.
Qed.

(** X5.  The protocol name is matched without regard to letter case: two
    names with the same lower-case form, and a name and its lower-case
    form, resolve alike. *)
Theorem X5_set_protocol_ignores_case self (a b : string) :
  (lower a = lower b →
   set_protocol import_module self (Some a) = set_protocol import_module self (Some b)) ∧
  set_protocol import_module self (Some (lower a)) = set_protocol import_module self (Some a).
Proof.
  split.
  - intros H. unfold set_protocol. rewrite H. reflexivity.
  - unfold set_protocol. rewrite lower_idempotent. reflexivity.
Qed.

(** X6.  When the module and the class are found and the constructor of
    the class raises, [set_protocol] raises that exception and the device
    is left with the new class and the codec it had before. *)
Theorem X6_set_protocol_constructor_raises self (name : string)
    (proto_module : PyModule World Defn) (cls : ProtocolClass World Defn) (e : exn) :
  import_module ("mppsolar.protocols." +:+ lower name) = Ok proto_module →
  proto_module (lower name) = Some cls →
  instantiate cls = Raise e →
  (set_protocol import_module self (Some name)).1 = Raise e ∧
  _protocol_class (set_protocol import_module self (Some name)).2 = Some cls ∧
  _protocol (set_protocol import_module self (Some name)).2 = _protocol self.
Proof.
  intros Hm Hc He. unfold set_protocol. rewrite Hm, Hc, He. repeat split.
Qed.

(** X7.  When [set_protocol] returns normally the binding is consistent,
    whatever it was before: nothing is bound, or the class found is bound
    together with the codec it built. *)
Theorem X7_set_protocol_consistent self (protocol : option string) :
  (set_protocol import_module self protocol).1 = Ok tt →
  consistent_binding (set_protocol import_module self protocol).2.
Proof.
  unfold set_protocol.
  destruct protocol as [name|]; [|left; split; reflexivity].
  destruct (import_module ("mppsolar.protocols." +:+ lower name))
    as [proto_module|[]]; try discriminate; try (left; split; reflexivity).
  destruct (proto_module (lower name)) as [cls|]; [|left; split; reflexivity].
  destruct (instantiate cls) as [p|e] eqn:Hp; [|discriminate].
  intros _. right. exists cls, p. repeat split. exact Hp.
Qed.

End SetProtocol.

Lemma X5_set_protocol_ignores_case_witness :
  set_protocol Bench.modules Bench.blank (Some "PI30")
    = set_protocol Bench.modules Bench.blank (Some "pI30").
Proof. apply (X5_set_protocol_ignores_case Bench.modules Bench.blank). reflexivity. Defined.

Lemma X6_set_protocol_constructor_raises_witness :
  _protocol_class (set_protocol Bench.modules Fixture.jk_serial (Some "PI18")).2
    = Some Bench.broken_class ∧
  _protocol (set_protocol Bench.modules Fixture.jk_serial (Some "PI18")).2
    = Some Fixture.pi30.
Proof.
  destruct (X6_set_protocol_constructor_raises Bench.modules Fixture.jk_serial "PI18"
              (λ attr, if decide (attr = "pi18") then Some Bench.broken_class else None)
              Bench.broken_class
              (TypeError "__init__() got an unexpected keyword argument")
              eq_refl eq_refl eq_refl) as [_ [H1 H2]].
  split; assumption.
Defined.

Lemma X7_set_protocol_consistent_witness :
  consistent_binding (set_protocol Bench.modules Bench.blank (Some "PI30")).2.
Proof. apply X7_set_protocol_consistent. reflexivity. Defined.

(** ** [set_port] *)

Section SetPort.
Context {World Defn : Type}.
Context (io : Transports World Defn).
Implicit Types (self : Device World Defn) (w : World) (baud : atom).

Lemma bind_port_outcome (cls : PortClass) new self w :
  (∃ f w', new w = (Ok f, w') ∧
     bind_port cls new self w
       = (Ok tt, with_port self (Some {| port_class := cls; send_and_receive := f |}), w')) ∨
  (∃ e w', new w = (Raise e, w') ∧ bind_port cls new self w = (Raise e, self, w')).
Proof.
  unfold bind_port. destruct (new w) as [[f|e] w'].
  - left. exists f, w'. split; reflexivity.
  - right. exists e, w'. split; reflexivity.
Qed.

(** The five ways [set_port] goes on a string. *)
Lemma set_port_string self (s : string) baud w :
  ∃ cls new, class_of_kind (kind_by_rules s) = Some cls ∧
             set_port io self (Some s) baud w = bind_port cls new self w ∧
             (cls ≠ SerialIO → ∀ baud', set_port io self (Some s) baud' w
                                        = bind_port cls new self w).
Proof.
  unfold set_port. rewrite classify_by_rules. unfold kind_by_rules, class_of_kind.
  destruct (str_in "test" (lower s)); [eexists _, _; repeat split|].
  destruct (str_in "hidraw" s || str_in "mppsolar" s); [eexists _, _; repeat split|].
  destruct (str_in "esp" (lower s)); [eexists _, _; repeat split|].
  destruct (str_in ":" s); eexists _, _; repeat split.
  intros H. contradiction H. reflexivity.
Qed.

(** X8.  [set_port] with no locator, which is its default, raises
    [AttributeError]; and whenever [set_port] raises, from the classifier
    or from the constructor of the transport, the device keeps the
    transport it had. *)
Theorem X8_set_port_failure_keeps_binding self (port : option string) baud w :
  set_port io self None baud w
    = (Raise (AttributeError "'NoneType' object has no attribute 'lower'"), self, w) ∧
  ∀ e, (set_port io self port baud w).1.1 = Raise e →
       (set_port io self port baud w).1.2 = self.
Proof.
  split; [reflexivity|]. intros e.
  destruct port as [s|]; [|reflexivity].
  destruct (set_port_string self s baud w) as (cls & new & _ & -> & _).
  destruct (bind_port_outcome cls new self w)
    as [(f & w' & _ & ->) | (e' & w' & _ & ->)]; [discriminate | reflexivity].
Qed.

(** X9.  When [set_port] on a string returns normally, a transport is
    bound (the branch that binds none is never taken), and its class is the
    one of the locator kind: TestIO for Test, HIDRawIO for direct USB,
    ESP32IO for ESP32, JkBleIO for BLE, SerialIO for Serial. *)
Theorem X9_set_port_binds_class_of_kind self (s : string) baud w self' w' :
  set_port io self (Some s) baud w = (Ok tt, self', w') →
  ∃ port, _port self' = Some port ∧
          class_of_kind (kind_by_rules s) = Some (port_class port).
Proof.
  destruct (set_port_string self s baud w) as (cls & new & Hcls & -> & _).
  destruct (bind_port_outcome cls new self w)
    as [(f & w1 & _ & ->) | (e' & w1 & _ & ->)]; [|discriminate].
  intros H. inversion H; subst.
  eexists. split; [reflexivity|]. exact Hcls.
Qed.

(** X10.  The baud rate matters to serial locators only: for a locator of
    any other kind [set_port] does the same whatever [baud] is. *)
Theorem X10_set_port_baud_serial_only self (s : string) (baud baud' : atom) w :
  kind_by_rules s ≠ PORT_TYPE_SERIAL →
  set_port io self (Some s) baud w = set_port io self (Some s) baud' w.
Proof.
  intros Hkind.
  destruct (set_port_string self s baud w) as (cls & new & Hcls & -> & Hb).
  symmetry. apply Hb. intros ->.
  apply Hkind. revert Hcls. unfold class_of_kind, kind_by_rules.
  destruct (str_in "test" (lower s)); [discriminate|].
  destruct (str_in "hidraw" s || str_in "mppsolar" s); [discriminate|].
  destruct (str_in "esp" (lower s)); [discriminate|].
  destruct (str_in ":" s); [discriminate|reflexivity].
Qed.

(** X11.  [set_port] never touches the protocol binding, the name or the
    class of the device, whether it returns or raises. *)
Theorem X11_set_port_keeps_protocol self (port : option string) baud w :
  _protocol (set_port io self port baud w).1.2 = _protocol self ∧
  _protocol_class (set_port io self port baud w).1.2 = _protocol_class self ∧
  _name (set_port io self port baud w).1.2 = _name self ∧
  device_class (set_port io self port baud w).1.2 = device_class self.
Proof.
  destruct port as [s|]; [|repeat split].
  destruct (set_port_string self s baud w) as (cls & new & _ & -> & _).
  destruct (bind_port_outcome cls new self w)
    as [(f & w' & _ & ->) | (e' & w' & _ & ->)]; repeat split.
Qed.

End SetPort.

Lemma X8_set_port_failure_keeps_binding_witness :
  (set_port Bench.io Fixture.jk_serial None (AInt 2400) 0).1.2 = Fixture.jk_serial.
Proof.
  eapply (X8_set_port_failure_keeps_binding Bench.io Fixture.jk_serial None (AInt 2400) 0).
  reflexivity.
Defined.

Lemma X9_set_port_binds_class_of_kind_witness :
  ∃ port, _port (set_port Bench.io Bench.blank (Some "/dev/ttyUSB0") (AInt 2400) 0).1.2
            = Some port ∧
          Some SerialIO = Some (port_class port).
Proof.
  apply (X9_set_port_binds_class_of_kind Bench.io Bench.blank "/dev/ttyUSB0" (AInt 2400) 0
           _ 1).
  reflexivity.
Defined.

Lemma X10_set_port_baud_serial_only_witness :
  set_port Bench.io Bench.blank (Some "3c:a5:09:0a:85:79") (AInt 2400) 0
    = set_port Bench.io Bench.blank (Some "3c:a5:09:0a:85:79") (AInt 9600) 0.
Proof. apply X10_set_port_baud_serial_only. discriminate. Defined.

(** ** [list_commands] *)

Section ListCommands.
Context {World Defn : Type}.
Context (COMMANDS : Protocol World Defn → list (string * gmap string atom)).
Implicit Types (self : Device World Defn) (res : Response).
Implicit Types (commands : list (string * gmap string atom)).

Lemma list_commands_loop_described commands : ∀ res,
  NoDup commands.*1 →
  (∀ c d, (c, d) ∈ commands → is_Some (d !! "description")) →
  ∃ res', list_commands_loop commands res = Ok res' ∧
          dom res' = list_to_set commands.*1 ∪ dom res ∧
          (∀ c, c ∉ commands.*1 → res' !! c = res !! c) ∧
          (∀ c d, (c, d) ∈ commands →
                  ∃ x, d !! "description" = Some x ∧ res' !! c = Some [x; AStr ""]).
Proof.
  induction commands as [|[c0 d0] commands IH]; intros res Hnd Hdesc.
  - exists res. split; [reflexivity|].
    split; [symmetry; apply (left_id_L ∅ (∪))|]. split; [reflexivity|].
    intros c d H. apply elem_of_nil in H. contradiction.
  - cbn [fmap list_fmap fst] in Hnd. apply NoDup_cons in Hnd as [Hfresh Hnd].
    destruct (Hdesc c0 d0) as [x0 Hx0]; [left|].
    cbn [list_commands_loop]. rewrite Hx0.
    destruct (IH (<[c0 := [x0; AStr ""]]> res) Hnd) as (res' & Hrun & Hdom & Hout & Hin).
    { intros c d H. apply (Hdesc c d). right. exact H. }
    exists res'. split; [exact Hrun|]. split; [|split].
    + rewrite Hdom, dom_insert_L. cbn [fmap list_fmap fst].
      rewrite list_to_set_cons, (assoc_L (∪)), (comm_L (∪) (list_to_set _) {[c0]}).
      reflexivity.
    + intros c Hc. cbn [fmap list_fmap fst] in Hc.
      apply not_elem_of_cons in Hc as [Hne Hc].
      rewrite (Hout c Hc), lookup_insert_ne by congruence. reflexivity.
    + intros c d H. apply elem_of_cons in H as [H|H].
      * inversion H; subst. exists x0. split; [exact Hx0|].
        rewrite (Hout c0 Hfresh), lookup_insert_eq. reflexivity.
      * apply (Hin c d H).
Qed.

Lemma list_commands_loop_undescribed commands : ∀ res c d,
  (c, d) ∈ commands → d !! "description" = None →
  list_commands_loop commands res = Raise (key_error "description").
Proof.
  induction commands as [|[c0 d0] commands IH]; intros res c d Hin Hd.
  - apply elem_of_nil in Hin. contradiction.
  - cbn [list_commands_loop].
    destruct (d0 !! "description") as [x0|] eqn:Hx0; [|reflexivity].
    apply elem_of_cons in Hin as [Hin|Hin].
    + inversion Hin; subst. congruence.
    + apply (IH _ c d Hin Hd).
Qed.

(** X12.  With a protocol bound whose command definitions all have a
    description, [list_commands] returns a mapping whose keys are exactly
    the registered command names, each mapped to its description and the
    empty string. *)
Theorem X12_list_commands_lists_registry self (p : Protocol World Defn) :
  _protocol self = Some p →
  NoDup (COMMANDS p).*1 →
  (∀ c d, (c, d) ∈ COMMANDS p → is_Some (d !! "description")) →
  ∃ res, list_commands COMMANDS self = Ok res ∧
         dom res = list_to_set (COMMANDS p).*1 ∧
         ∀ c d, (c, d) ∈ COMMANDS p →
                ∃ x, d !! "description" = Some x ∧ res !! c = Some [x; AStr ""].
Proof.
  intros Hp Hnd Hdesc. unfold list_commands. rewrite Hp.
  destruct (list_commands_loop_described (COMMANDS p) ∅ Hnd Hdesc)
    as (res & Hrun & Hdom & _ & Hin).
  exists res. split; [exact Hrun|]. split; [|exact Hin].
  rewrite Hdom, dom_empty_L. apply (right_id_L ∅ (∪)).
Qed.

(** X13.  With no protocol bound [list_commands] returns one ERROR entry
    and does not raise; with a protocol bound one of whose command
    definitions has no description it raises [KeyError]. *)
Theorem X13_list_commands_failures self :
  (_protocol self = None →
   ∃ res, list_commands COMMANDS self = Ok res ∧
          dom res = {["ERROR"]} ∧
          res !! "ERROR"
            = Some [AStr "Attempted to list commands with no protocol defined"; AStr ""]) ∧
  (∀ p c d, _protocol self = Some p → (c, d) ∈ COMMANDS p →
            d !! "description" = None →
            list_commands COMMANDS self = Raise (OtherError "KeyError: 'description'")).
Proof.
  split.
  - intros Hp. unfold list_commands. rewrite Hp. eexists. split; [reflexivity|].
    split; [apply dom_singleton_L | apply lookup_singleton_eq].
  - intros p c d Hp Hin Hd. unfold list_commands. rewrite Hp.
    apply (list_commands_loop_undescribed _ ∅ c d Hin Hd).
Qed.

End ListCommands.

Lemma X12_list_commands_lists_registry_witness :
  ∃ res, list_commands Bench.registry Fixture.jk_serial = Ok res ∧
         dom res = {["QPI"; "QID"]} ∧
         res !! "QID" = Some [AStr "Device Serial Number inquiry"; AStr ""].
Proof.
  destruct (X12_list_commands_lists_registry Bench.registry Fixture.jk_serial Fixture.pi30
              eq_refl) as (res & Hrun & Hdom & Hin).
  - apply (bool_decide_unpack _). by vm_compute.
  - intros c d H. cbn in H.
    repeat (apply elem_of_cons in H as [H|H]; [inversion H; subst; eexists; reflexivity|]).
    apply elem_of_nil in H. contradiction.
  - exists res. split; [exact Hrun|]. split.
    + rewrite Hdom. cbn. set_solver.
    + destruct (Hin "QID" {[ "name" := AStr "QID";
                              "description" := AStr "Device Serial Number inquiry" ]})
        as (x & Hx & Hres).
      * right. left.
      * rewrite Hres. vm_compute in Hx. congruence.
Defined.

Lemma X13_list_commands_failures_witness :
  list_commands Bench.bad_registry Fixture.jk_serial
    = Raise (OtherError "KeyError: 'description'") ∧
  ∃ res, list_commands Bench.bad_registry Bench.blank = Ok res ∧ dom res = {["ERROR"]}.
Proof.
  destruct (X13_list_commands_failures Bench.bad_registry Fixture.jk_serial) as [_ H2].
  destruct (X13_list_commands_failures Bench.bad_registry Bench.blank) as [H1 _].
  split.
  - apply (H2 Fixture.pi30 "QID" {[ "name" := AStr "QID" ]}); [reflexivity| |reflexivity].
    right. left.
  - destruct (H1 eq_refl) as (res & Hres & Hdom & _). exists res. split; assumption.
Defined.

(** ** What one [run_command] does at the boundary *)

Section Boundary.
Context {World Defn : Type}.
Implicit Types (self : Device World Defn) (st : St World Defn).
Implicit Types (command show_raw : atom) (ev : event World Defn).

(** Every path of [run_command], with the calls it made. *)
Ltac run_command_paths self H :=
  unfold run_command, jk24s_run_command, mppsolar_run_command,
    bind, port_call, call, ret in H;
  destruct (device_class self);
  destruct (_protocol self) as [protocol|];
  [destruct (_port self) as [port|]; [try destruct (port_class port)|] | |
   destruct (_port self) as [port|] |];
  run_calls H; inversion H; subst; clear H; cbn [trace world];
  rewrite <- ?app_assoc; cbn [app].

Lemma self_app_inv {A} (l evs : list A) : l = l ++ evs → [] = evs.
Proof. intros H. apply (app_inv_head l). rewrite app_nil_r. exact H. Qed.

Lemma decode_event_inj (raw raw' : bytes) (s s' c c' : atom) (o o' : result value) :
  EvDecode (World:=World) (Defn:=Defn) raw s c o = EvDecode raw' s' c' o' →
  raw = raw' ∧ s = s' ∧ c = c' ∧ o = o'.
Proof.
  intros H. repeat split.
  - apply (f_equal (λ ev, match ev with EvDecode x _ _ _ => x | _ => raw end)) in H.
    exact H.
  - apply (f_equal (λ ev, match ev with EvDecode _ x _ _ => x | _ => s end)) in H.
    exact H.
  - apply (f_equal (λ ev, match ev with EvDecode _ _ x _ => x | _ => c end)) in H.
    exact H.
  - apply (f_equal (λ ev, match ev with EvDecode _ _ _ x => x | _ => o end)) in H.
    exact H.
Qed.

Lemma run_command_calls self command show_raw st out st' :
  run_command self command show_raw st = (out, st') →
  ∃ evs, trace st' = trace st ++ evs ∧
         length evs ≤ 4 ∧ length (List.filter is_send evs) ≤ 1.
Proof.
  intros H. run_command_paths self H;
    first [ exists []; split; [by rewrite app_nil_r|]; cbn; lia
          | eexists; split; [reflexivity|]; cbn; lia ].
Qed.

(** X14.  One [run_command], and so one [run_default_command], makes at
    most four outside calls, and among them at most one
    [send_and_receive]: a command is never sent twice. *)
Theorem X14_run_command_sends_at_most_once self command show_raw st out st' :
  run_command self command show_raw st = (out, st') ∨
  run_default_command self show_raw st = (out, st') →
  ∃ evs, trace st' = trace st ++ evs ∧
         length evs ≤ 4 ∧ length (List.filter is_send evs) ≤ 1.
Proof.
  intros [H|H]; [apply (run_command_calls _ _ _ _ _ _ H)|].
  unfold run_default_command, raise in H. destruct (_protocol self) as [p|].
  - apply (run_command_calls _ _ _ _ _ _ H).
  - inversion H; subst. exists []. split; [by rewrite app_nil_r|]. cbn. lia.
Qed.

(** X15.  [run_command] raises nothing of its own: when it raises, the
    exception is the one the last outside call raised (the codec or the
    transport), and no call was made after it. *)
Theorem X15_run_command_raises_from_collaborator self command show_raw st e st' :
  run_command self command show_raw st = (Raise e, st') →
  ∃ evs ev, trace st' = trace st ++ evs ++ [ev] ∧ event_raised ev = Some e.
Proof.
  intros H. run_command_paths self H;
    first [ by eexists [], _ | by eexists [_], _ | by eexists [_; _], _
          | by eexists [_; _; _], _ ].
Qed.

(** X16.  [decode] is only ever called as the last call of [run_command],
    on the bytes the transport has just returned, with the [show_raw] flag
    and the command name [run_command] was given; what it returns or
    raises is the outcome of [run_command]. *)
Theorem X16_decode_gets_transport_data self command show_raw st out st'
    evs (raw : bytes) (flag name : atom) (o : result value) :
  run_command self command show_raw st = (out, st') →
  trace st' = trace st ++ evs →
  EvDecode raw flag name o ∈ evs →
  flag = show_raw ∧ name = command ∧ o = out ∧
  ∃ evs0 args,
    evs = evs0 ++ [EvSendAndReceive args (Ok (VBytes raw)); EvDecode raw flag name o].
Proof.
  intros H Htrace Hin. revert Htrace. run_command_paths self H; intros Htrace;
    first [ apply app_inv_head in Htrace | apply self_app_inv in Htrace ];
    subst evs;
    repeat (apply elem_of_cons in Hin as [Hin|Hin]);
    try (apply elem_of_nil in Hin; contradiction);
    try discriminate Hin;
    apply decode_event_inj in Hin as (-> & -> & -> & ->);
    (split; [reflexivity|split; [reflexivity|split; [reflexivity|]]]);
    first [ by eexists [], _ | by eexists [_], _ | by eexists [_; _], _ ].
Qed.

(** X17.  The two device classes behave alike when the protocol or the
    transport is unbound and when the transport is the BLE one: they
    differ on the other transports only. *)
Theorem X17_classes_agree_on_ble self command show_raw st :
  _protocol self = None ∨ _port self = None ∨
    (∃ port, _port self = Some port ∧ port_class port = JkBleIO) →
  run_command (as_class jk24s self) command show_raw st
    = run_command (as_class mppsolar self) command show_raw st.
Proof.
  unfold run_command, jk24s_run_command, mppsolar_run_command, as_class. cbn.
  intros [-> | [H | (port & -> & ->)]]; [reflexivity| |].
  - rewrite H. reflexivity.
  - destruct (_protocol self); reflexivity.
Qed.

End Boundary.

Lemma X14_run_command_sends_at_most_once_witness :
  ∃ evs, trace (run_command Fixture.jk_serial (AStr "QPI") (ABool false) Fixture.st0).2
           = trace Fixture.st0 ++ evs ∧
         length evs ≤ 4 ∧ length (List.filter is_send evs) ≤ 1.
Proof.
  eapply (X14_run_command_sends_at_most_once Fixture.jk_serial (AStr "QPI") (ABool false)
            Fixture.st0).
  left. reflexivity.
Defined.

Lemma X15_run_command_raises_from_collaborator_witness :
  ∃ evs ev,
    trace (run_command Fixture.mpp_serial (AStr "QPI") (ABool false) Fixture.st0).2
      = trace Fixture.st0 ++ evs ++ [ev] ∧
    event_raised ev = Some (TypeError "send_and_receive() takes 2 positional arguments").
Proof.
  eapply (X15_run_command_raises_from_collaborator Fixture.mpp_serial (AStr "QPI")
            (ABool false) Fixture.st0).
  reflexivity.
Defined.

Lemma X16_decode_gets_transport_data_witness :
  ABool true = ABool true ∧ AStr "QPI" = AStr "QPI" ∧
  Ok (VDict {[ "QPI" := [AStr "PI30"; AStr ""]; "mode" := [AStr "QPI"; AStr ""] ]})
    = (run_command Fixture.jk_serial (AStr "QPI") (ABool true) Fixture.st0).1.
Proof.
  destruct (X16_decode_gets_transport_data Fixture.jk_serial (AStr "QPI") (ABool true)
              Fixture.st0
              (run_command Fixture.jk_serial (AStr "QPI") (ABool true) Fixture.st0).1
              (run_command Fixture.jk_serial (AStr "QPI") (ABool true) Fixture.st0).2
              (trace (run_command Fixture.jk_serial (AStr "QPI") (ABool true) Fixture.st0).2)
              Fixture.QPI (ABool true) (AStr "QPI")
              (Ok (VDict {[ "QPI" := [AStr "PI30"; AStr ""];
                            "mode" := [AStr "QPI"; AStr ""] ]})))
    as (H1 & H2 & H3 & _).
  - reflexivity.
  - reflexivity.
  - right. right. left.
  - repeat split; assumption.
Defined.

Lemma X17_classes_agree_on_ble_witness :
  run_command (as_class jk24s Bench.jk_no_port) (AStr "QPI") (ABool false) Fixture.st0
    = run_command (as_class mppsolar Bench.jk_no_port) (AStr "QPI") (ABool false) Fixture.st0.
Proof. apply X17_classes_agree_on_ble. right. left. reflexivity. Defined.

(** ** More on batches *)

Section MoreBatches.
Context {World Defn : Type}.
Implicit Types (self : Device World Defn) (st : St World Defn).
Implicit Types (commands : list entry).

Lemma size_list_to_set_le (l : list atom) :
  size (list_to_set l : gset atom) ≤ length l.
Proof.
  induction l as [|x l IH]; [rewrite list_to_set_nil, size_empty; lia|].
  rewrite list_to_set_cons, size_union_alt, size_singleton. cbn [length].
  pose proof (subseteq_size (list_to_set l ∖ {[x]}) (list_to_set l : gset atom)) as H.
  assert (list_to_set l ∖ {[x]} ⊆ (list_to_set l : gset atom)) as Hsub.
  { intros y Hy. apply elem_of_difference in Hy as [Hy _]. exact Hy. }
  specialize (H Hsub). lia.
Qed.

Lemma run_commands_keys self commands st m st' :
  run_commands self commands st = (Ok m, st') →
  dom m = list_to_set (batch_keys commands).
Proof.
  unfold run_commands. rewrite run_commands_from_files.
  destruct (mapM (entry_value self) commands st) as [[vs|e] st1] eqn:E; [|discriminate].
  intros H. inversion H; subst.
  rewrite file_from_list_to_map, (right_id_L ∅ (∪)).
  change (dom (file_results commands vs) = list_to_set (batch_keys commands)).
  apply dom_file_results. eapply mapM_length, E.
Qed.

(** X18.  The mapping [run_commands] returns has at most one entry per
    entry of the batch, and none for an empty batch. *)
Theorem X18_run_commands_size self commands st m st' :
  run_commands self commands st = (Ok m, st') →
  size m ≤ length commands.
Proof.
  intros H. rewrite <- size_dom, (run_commands_keys _ _ _ _ _ H).
  etrans; [apply size_list_to_set_le|].
  unfold batch_keys. rewrite length_imap. lia.
Qed.

Lemma run_commands_from_unbound self commands :
  _protocol self = None →
  Forall (λ e, well_formed e = true) commands →
  ∀ i (responses : gmap atom value) st,
    (∀ k v, responses !! k = Some v → own_error v) →
    ∃ m, run_commands_from self i commands responses st = (Ok m, st) ∧
         ∀ k v, m !! k = Some v → own_error v.
Proof.
  intros Hp Hwf. induction Hwf as [|e commands He _ IH]; intros i responses st Hres.
  - exists responses. split; [reflexivity | exact Hres].
  - cbn [run_commands_from]. unfold bind.
    assert (∃ k v, run_commands_step self i e responses st
                     = (Ok (<[k := v]> responses), st) ∧ own_error v)
      as (k & v & -> & Hv).
    { destruct e as [[s|z|b|]|t|l];
        try (eexists _, _; split; [reflexivity | by right]).
      - cbn [run_commands_step]. unfold bind, ret.
        rewrite (run_command_no_protocol self _ _ st Hp).
        eexists _, _. split; [reflexivity | by left].
      - destruct t as [|c0 [|c1 [|x [|y rest]]]]; [| | | |discriminate He];
          cbn [run_commands_step apply_run_command]; unfold bind, ret;
          rewrite ?(run_command_no_protocol self _ _ st Hp);
          eexists _, _; (split; [reflexivity|]); (by left) || (by right). }
    apply IH. intros k' v' H. apply lookup_insert_Some in H as [[_ <-]|[_ H]].
    + exact Hv.
    + apply (Hres k' v' H).
Qed.

(** X19.  On a device with no protocol bound, a batch whose tuples have at
    most three elements never raises and makes no outside call: every
    entry of the result is the "no protocol" or the "Unknown command
    format" ERROR Response. *)
Theorem X19_run_commands_unbound self commands st :
  _protocol self = None →
  Forall (λ e, well_formed e = true) commands →
  ∃ m, run_commands self commands st = (Ok m, st) ∧
       ∀ k v, m !! k = Some v → v = no_protocol_error ∨ v = unknown_format.
Proof.
  intros Hp Hwf. apply (run_commands_from_unbound self commands Hp Hwf).
  intros k v H. rewrite lookup_empty in H. discriminate H.
Qed.

Lemma run_commands_from_same_step self (e e' : entry) (post : list entry) :
  (∀ i responses, run_commands_step self i e responses
                    = run_commands_step self i e' responses) →
  ∀ pre i (responses : gmap atom value) st,
    run_commands_from self i (pre ++ e :: post) responses st
      = run_commands_from self i (pre ++ e' :: post) responses st.
Proof.
  intros Hstep pre. induction pre as [|x pre IH]; intros i responses st.
  - cbn [app run_commands_from]. rewrite Hstep. reflexivity.
  - cbn [app run_commands_from]. unfold bind.
    destruct (run_commands_step self i x responses st) as [[r|ex] st1]; [|reflexivity].
    apply IH.
Qed.

(** X20.  Anywhere in a batch, the 1-tuple [(name,)] and the 2-tuple
    [(name, name)] do what the bare string [name] does. *)
Theorem X20_tuple_of_name_is_name self (pre post : list entry) (name : string) st :
  run_commands self (pre ++ ETuple [AStr name] :: post) st
    = run_commands self (pre ++ EAtom (AStr name) :: post) st ∧
  run_commands self (pre ++ ETuple [AStr name; AStr name] :: post) st
    = run_commands self (pre ++ EAtom (AStr name) :: post) st.
Proof.
  split; apply run_commands_from_same_step; reflexivity.
Qed.

End MoreBatches.

Lemma X18_run_commands_size_witness :
  ∃ m st',
    run_commands Fixture.jk_serial
      [EAtom (AStr "QPI"); ETuple [AStr "QID"; AStr "QPI"]] Fixture.st0 = (Ok m, st') ∧
    size m ≤ 2.
Proof.
  eexists _, _. split; [reflexivity|].
  eapply (X18_run_commands_size Fixture.jk_serial
            [EAtom (AStr "QPI"); ETuple [AStr "QID"; AStr "QPI"]] Fixture.st0).
  reflexivity.
Defined.

Lemma X19_run_commands_unbound_witness :
  ∃ m, run_commands Bench.blank
         [EAtom (AStr "QPI"); EAtom (AInt 42); ETuple [AStr "QID"; AStr "id"; ABool true]]
         Fixture.st0 = (Ok m, Fixture.st0) ∧
       ∀ k v, m !! k = Some v → v = no_protocol_error ∨ v = unknown_format.
Proof.
  apply X19_run_commands_unbound; [reflexivity|].
  repeat constructor.
Defined.

(** ** [get_status] and [get_settings] without a transport, and their cost *)

Section MoreStatus.
Context {World Defn : Type}.
Implicit Types (self : Device World Defn) (st : St World Defn).
Implicit Types (p : Protocol World Defn) (data : Response).

Lemma update_each_no_port self (commands : list string) :
  is_Some (_protocol self) → _port self = None →
  ∀ data st,
    update_each self commands data st
      = (Ok (foldl (λ d c, match no_port_error (AStr c) with
                           | VDict r => r ∪ d
                           | VBytes _ => d
                           end) data commands), st).
Proof.
  intros Hp Hport. induction commands as [|c commands IH]; intros data st.
  - reflexivity.
  - cbn [update_each foldl]. unfold bind.
    rewrite (run_command_no_port self _ _ st Hp Hport). cbn. apply IH.
Qed.

Lemma only_error_union (x : list atom) data :
  (∀ k, k ≠ "ERROR" → data !! k = None) →
  ({[ "ERROR" := x ]} : Response) ∪ data = {[ "ERROR" := x ]}.
Proof.
  intros H. apply map_eq. intros k. rewrite lookup_union.
  destruct (decide (k = "ERROR")) as [->|Hne].
  - rewrite lookup_singleton_eq. destruct (data !! "ERROR"); reflexivity.
  - rewrite lookup_singleton_ne, (H k Hne) by congruence. reflexivity.
Qed.

Lemma no_port_merge (commands : list string) (c : string) :
  foldl (λ (d : Response) c, match no_port_error (AStr c) with
                             | VDict r => r ∪ d
                             | VBytes _ => d
                             end) ∅ (commands ++ [c])
    = {[ "ERROR" :=
           [AStr ("No communications port defined - unable to run command " +:+ c);
            AStr ""] ]}.
Proof.
  rewrite foldl_app. cbn [foldl no_port_error py_str].
  apply only_error_union.
  induction commands as [|c' commands IH] using rev_ind; intros k Hk.
  - apply lookup_empty.
  - rewrite foldl_app. cbn [foldl no_port_error py_str].
    rewrite (only_error_union _ _ IH). rewrite lookup_singleton_ne by congruence.
    reflexivity.
Qed.

(** X21.  With a protocol bound and no transport, [get_status] (and
    [get_settings]) makes no outside call and returns one entry, whatever
    the number of commands: the "no communications port" ERROR naming the
    last command of the list.  With an empty list it returns the empty
    mapping. *)
Theorem X21_get_status_without_port self p (show_raw : atom) st :
  _protocol self = Some p → _port self = None →
  (∀ commands c, STATUS_COMMANDS p = commands ++ [c] →
     get_status self show_raw st
       = (Ok {[ "ERROR" :=
                  [AStr ("No communications port defined - unable to run command " +:+ c);
                   AStr ""] ]}, st)) ∧
  (∀ commands c, SETTINGS_COMMANDS p = commands ++ [c] →
     get_settings self show_raw st
       = (Ok {[ "ERROR" :=
                  [AStr ("No communications port defined - unable to run command " +:+ c);
                   AStr ""] ]}, st)) ∧
  (STATUS_COMMANDS p = [] → get_status self show_raw st = (Ok ∅, st)) ∧
  (SETTINGS_COMMANDS p = [] → get_settings self show_raw st = (Ok ∅, st)).
Proof.
  intros Hp Hport.
  assert (is_Some (_protocol self)) as Hsome by (rewrite Hp; eauto).
  unfold get_status, get_settings, jk24s_get_status, jk24s_get_settings,
    mppsolar_get_status, mppsolar_get_settings. rewrite Hp.
  repeat split.
  - intros commands c ->. destruct (device_class self);
      rewrite (update_each_no_port self _ Hsome Hport), no_port_merge; reflexivity.
  - intros commands c ->. destruct (device_class self);
      rewrite (update_each_no_port self _ Hsome Hport), no_port_merge; reflexivity.
  - intros ->. destruct (device_class self); reflexivity.
  - intros ->. destruct (device_class self); reflexivity.
Qed.

Lemma dict_update_silent data (v : value) st out st' :
  dict_update (World:=World) (Defn:=Defn) data v st = (out, st') → st' = st.
Proof.
  destruct v as [r|[|b raw]]; cbn; unfold ret, raise; intros H; inversion H; reflexivity.
Qed.

Lemma update_each_sends self (commands : list string) : ∀ data st out st',
  update_each self commands data st = (out, st') →
  ∃ evs, trace st' = trace st ++ evs ∧
         length (List.filter is_send evs) ≤ length commands.
Proof.
  induction commands as [|c commands IH]; intros data st out st' H.
  - inversion H; subst. exists []. split; [by rewrite app_nil_r | cbn; lia].
  - cbn [update_each] in H. unfold bind in H.
    destruct (run_command self (AStr c) (ABool false) st) as [[v|e] st1] eqn:Hrun.
    + destruct (run_command_calls _ _ _ _ _ _ Hrun) as (evs1 & T1 & _ & S1).
      destruct (dict_update data v st1) as [[data'|e] st2] eqn:Hupd.
      * apply dict_update_silent in Hupd. subst st2.
        destruct (IH _ _ _ _ H) as (evs2 & T2 & S2).
        exists (evs1 ++ evs2). split.
        -- rewrite T2, T1, app_assoc. reflexivity.
        -- rewrite List.filter_app, length_app. cbn [length]. lia.
      * apply dict_update_silent in Hupd. subst st2. inversion H; subst.
        exists evs1. split; [exact T1 | cbn [length]; lia].
    + destruct (run_command_calls _ _ _ _ _ _ Hrun) as (evs1 & T1 & _ & S1).
      inversion H; subst. exists evs1. split; [exact T1 | cbn [length]; lia].
Qed.

(** X22.  [get_status] sends at most one command to the transport per
    entry of [STATUS_COMMANDS], and [get_settings] at most one per entry of
    [SETTINGS_COMMANDS]. *)
Theorem X22_get_status_sends_once_per_command self p (show_raw : atom) st out st' :
  _protocol self = Some p →
  (get_status self show_raw st = (out, st') →
   ∃ evs, trace st' = trace st ++ evs ∧
          length (List.filter is_send evs) ≤ length (STATUS_COMMANDS p)) ∧
  (get_settings self show_raw st = (out, st') →
   ∃ evs, trace st' = trace st ++ evs ∧
          length (List.filter is_send evs) ≤ length (SETTINGS_COMMANDS p)).
Proof.
  intros Hp.
  unfold get_status, get_settings, jk24s_get_status, jk24s_get_settings,
    mppsolar_get_status, mppsolar_get_settings. rewrite Hp.
  split; intros H; destruct (device_class self); apply (update_each_sends _ _ _ _ _ _ H).
Qed.

(** X23.  When the run of the first status command returns raw bytes that
    are not empty, [data.update] raises [TypeError]: [get_status] raises it
    and the commands after the first are not run. *)
Theorem X23_get_status_stops_on_raw_bytes self p (show_raw : atom) st
    (c : string) (rest : list string) (b : Byte.byte) (raw : bytes) st1 :
  _protocol self = Some p →
  STATUS_COMMANDS p = c :: rest →
  run_command self (AStr c) (ABool false) st = (Ok (VBytes (b :: raw)), st1) →
  get_status self show_raw st
    = (Raise (TypeError
                "cannot convert dictionary update sequence element #0 to a sequence"),
       st1).
Proof.
  intros Hp Hc Hrun.
  unfold get_status, jk24s_get_status, mppsolar_get_status. rewrite Hp, Hc.
  destruct (device_class self); cbn [update_each]; unfold bind; rewrite Hrun; reflexivity.
Qed.

End MoreStatus.

Lemma X21_get_status_without_port_witness :
  get_status Bench.jk_no_port (ABool true) Fixture.st0
    = (Ok {[ "ERROR" :=
               [AStr "No communications port defined - unable to run command Q1";
                AStr ""] ]}, Fixture.st0).
Proof.
  apply (X21_get_status_without_port Bench.jk_no_port Fixture.pi30 (ABool true) Fixture.st0
           eq_refl eq_refl) with (commands := ["QPIGS"]).
  reflexivity.
Defined.

Lemma X22_get_status_sends_once_per_command_witness :
  ∃ evs, trace (get_status Fixture.jk_serial (ABool true) Fixture.st0).2
           = trace Fixture.st0 ++ evs ∧
         length (List.filter is_send evs) ≤ 2.
Proof.
  eapply (X22_get_status_sends_once_per_command Fixture.jk_serial Fixture.pi30 (ABool true)
            Fixture.st0 _ _ eq_refl).
  reflexivity.
Defined.

Lemma X23_get_status_stops_on_raw_bytes_witness :
  get_status Bench.mpp_bytes (ABool false) Fixture.st0
    = (Raise (TypeError
                "cannot convert dictionary update sequence element #0 to a sequence"),
       (run_command Bench.mpp_bytes (AStr "QPIGS") (ABool false) Fixture.st0).2).
Proof.
  eapply (X23_get_status_stops_on_raw_bytes Bench.mpp_bytes Fixture.pi30 (ABool false)
            Fixture.st0 "QPIGS" ["Q1"]); reflexivity.
Defined.

(** ** Construction, and a transport set from a MAC address *)

Section Construction.
Context {World Defn : Type}.
Context (io : Transports World Defn).
Context (import_module : string → result (PyModule World Defn)).
Implicit Types (self : Device World Defn) (w : World) (kw : kwargs).

Lemma name_is_unexpected (params : list string) kw :
  "name" ∉ params → is_Some (kw_get "name" kw) →
  is_Some (unexpected_keyword params kw).
Proof.
  intros Hname. induction kw as [|[k v] kw IH]; intros [x Hx]; [discriminate Hx|].
  cbn [kw_get unexpected_keyword] in *.
  destruct (decide (k ∈ params)) as [Hin|Hout]; [|eauto].
  destruct (decide (k = "name")) as [->|Hne]; [contradiction|].
  apply IH. eauto.
Qed.

(** X24.  The constructors of both device classes never return a device.
    Without a "name" keyword they raise [KeyError]; with one, the call
    [set_port( **kwargs )] raises [TypeError] for an unexpected keyword
    (the first keyword that is neither "port" nor "baud", "name" at the
    latest) before any transport is built or any module imported. *)
Theorem X24_device_init_always_raises (cls : DeviceClass) kw w :
  (kw_get "name" kw = None →
   device_init cls io import_module kw w = (Raise (OtherError "KeyError: 'name'"), w)) ∧
  (is_Some (kw_get "name" kw) →
   ∃ k, unexpected_keyword ["port"; "baud"] kw = Some k ∧
        device_init cls io import_module kw w
          = (Raise (TypeError ("set_port() got an unexpected keyword argument '"
                                 +:+ k +:+ "'")), w)) ∧
  (∀ self' w', device_init cls io import_module kw w ≠ (Ok self', w')) ∧
  jk24s_init io import_module kw w = device_init jk24s io import_module kw w ∧
  mppsolar_init io import_module kw w = device_init mppsolar io import_module kw w.
Proof.
  assert (is_Some (kw_get "name" kw) →
          ∃ k, unexpected_keyword ["port"; "baud"] kw = Some k ∧
               device_init cls io import_module kw w
                 = (Raise (unexpected "set_port" k), w)) as Hname.
  { intros Hsome.
    destruct (name_is_unexpected ["port"; "baud"] kw) as [k Hk];
      [apply (bool_decide_unpack _); by vm_compute | exact Hsome |].
    exists k. split; [exact Hk|].
    destruct Hsome as [v Hv]. unfold device_init, set_port_kw. rewrite Hv, Hk.
    reflexivity. }
  split; [|split; [exact Hname|split; [|split; reflexivity]]].
  - intros H. unfold device_init. rewrite H. reflexivity.
  - intros self' w' H.
    destruct (kw_get "name" kw) as [v|] eqn:Hv.
    + destruct Hname as (k & _ & Hk); [eauto|]. rewrite Hk in H. discriminate H.
    + unfold device_init in H. rewrite Hv in H. discriminate H.
Qed.

(** X25.  After [set_port] has returned normally on a locator made of
    hexadecimal digits and colons, a device of either class with a
    protocol bound makes one outside call per [run_command]: it hands the
    command name, the flag and the codec to the object the JkBleIO
    constructor returned, and returns what that object returns. *)
Theorem X25_mac_locator_forwards_to_ble self (s : string) (baud : atom) w self' w'
    (p : Protocol World Defn) (command show_raw : atom) (st : St World Defn) :
  all_chars mac_char s = true → str_in ":" s = true →
  _protocol self = Some p →
  set_port io self (Some s) baud w = (Ok tt, self', w') →
  ∃ send,
    new_JkBleIO io (Some s) w = (Ok send, w') ∧
    run_command self' command show_raw st
      = ((send [ArgAtom command; ArgAtom show_raw; ArgProtocol p] (world st)).1,
         {| world := (send [ArgAtom command; ArgAtom show_raw; ArgProtocol p] (world st)).2;
            trace := trace st ++
              [EvSendAndReceive [ArgAtom command; ArgAtom show_raw; ArgProtocol p]
                 (send [ArgAtom command; ArgAtom show_raw; ArgProtocol p] (world st)).1] |}).
Proof.
  intros Hmac Hcolon Hp. unfold set_port.
  rewrite classify_by_rules, (mac_kind s Hmac Hcolon). cbn. unfold bind_port.
  destruct (new_JkBleIO io (Some s) w) as [[send|e] w1]; [|discriminate].
  intros H. inversion H; subst. exists send. split; [reflexivity|].
  unfold run_command, jk24s_run_command, mppsolar_run_command, port_call, call.
  cbn. rewrite Hp.
  destruct (device_class self);
    destruct (send [ArgAtom command; ArgAtom show_raw; ArgProtocol p] (world st));
    reflexivity.
Qed.

End Construction.

Lemma X24_device_init_always_raises_witness :
  jk24s_init Bench.io Bench.modules Bench.launch 0
    = (Raise (TypeError "set_port() got an unexpected keyword argument 'name'"), 0).
Proof.
  destruct (X24_device_init_always_raises Bench.io Bench.modules jk24s Bench.launch 0)
    as (_ & H & _).
  destruct H as (k & Hk & Hinit); [eexists; reflexivity|].
  vm_compute in Hk. injection Hk as <-. exact Hinit.
Defined.

Lemma X25_mac_locator_forwards_to_ble_witness :
  ∃ send,
    new_JkBleIO Bench.io (Some "3c:a5:09:0a:85:79") 0 = (Ok send, 1) ∧
    (run_command
       (set_port Bench.io Bench.jk_no_port (Some "3c:a5:09:0a:85:79") (AInt 2400) 0).1.2
       (AStr "getInfo") (ABool false) Fixture.st0).1
      = (send [ArgAtom (AStr "getInfo"); ArgAtom (ABool false); ArgProtocol Fixture.pi30] 0).1.
Proof.
  destruct (X25_mac_locator_forwards_to_ble Bench.io Bench.jk_no_port "3c:a5:09:0a:85:79"
              (AInt 2400) 0
              (set_port Bench.io Bench.jk_no_port (Some "3c:a5:09:0a:85:79") (AInt 2400) 0).1.2
              1 Fixture.pi30 (AStr "getInfo") (ABool false) Fixture.st0
              eq_refl eq_refl eq_refl eq_refl) as (send & Hnew & Hrun).
  exists send. split; [exact Hnew|]. rewrite Hrun. reflexivity.
Defined.

(** ** [run_default_command] *)

Section DefaultCommand.
Context {World Defn : Type}.
Implicit Types (self : Device World Defn) (st : St World Defn).

(** X26.  With a protocol bound, [run_default_command] hands its
    [show_raw] flag on: every call to the transport or the codec that takes
    a flag is given it (where [get_status] always gives [False]); and with
    no transport bound it returns the "no communications port" ERROR
    naming the default command of the protocol, without any outside
    call. *)
Theorem X26_run_default_command_passes_flag self (p : Protocol World Defn)
    (show_raw : atom) st :
  _protocol self = Some p →
  emits (flag_is show_raw) (run_default_command self show_raw) ∧
  (_port self = None →
   run_default_command self show_raw st
     = (Ok (VDict {[ "ERROR" :=
              [AStr ("No communications port defined - unable to run command "
                       +:+ DEFAULT_COMMAND p); AStr ""] ]}), st)).
Proof.
  intros Hp. unfold run_default_command. rewrite Hp. split.
  - apply run_command_flag.
  - intros Hport. apply run_command_no_port; [rewrite Hp; eauto | exact Hport].
Qed.

End DefaultCommand.

Lemma X26_run_default_command_passes_flag_witness :
  run_default_command Bench.jk_no_port (ABool true) Fixture.st0
    = (Ok (VDict {[ "ERROR" :=
             [AStr "No communications port defined - unable to run command QPI";
              AStr ""] ]}), Fixture.st0).
Proof.
  apply (X26_run_default_command_passes_flag Bench.jk_no_port Fixture.pi30 (ABool true)
           Fixture.st0 eq_refl).
  reflexivity.
Defined.

(** ** The encoding path of [jk24s], run *)

Lemma jk24s_encode_send_decode_witness :
  run_command Fixture.jk_serial (AStr "QPI") (ABool true) Fixture.st0
    = (Ok (VDict {[ "QPI" := [AStr "PI30"; AStr ""]; "mode" := [AStr "QPI"; AStr ""] ]}),
       {| world := 1;
          trace := trace Fixture.st0 ++
            [EvGetFullCommand (AStr "QPI") (Ok Fixture.QPI);
             EvSendAndReceive [ArgBytes Fixture.QPI] (Ok (VBytes Fixture.QPI));
             EvDecode Fixture.QPI (ABool true) (AStr "QPI")
               (Ok (VDict {[ "QPI" := [AStr "PI30"; AStr ""];
                             "mode" := [AStr "QPI"; AStr ""] ]}))] |}).
Proof.
  eapply (jk24s_encode_send_decode Fixture.jk_serial Fixture.pi30 Fixture.serial_io);
    try reflexivity; discriminate.
Defined.

Lemma jk24s_encode_send_decode_test_witness :
  run_command (Fixture.device jk24s (Some Fixture.pi30) (Some Fixture.test_io))
      (AStr "QPI") (ABool false) Fixture.st0
    = (Ok (VDict {[ "QPI" := [AStr "PI30"; AStr ""]; "mode" := [AStr "QPI"; AStr ""] ]}),
       {| world := 1;
          trace := trace Fixture.st0 ++
            [EvGetFullCommand (AStr "QPI") (Ok Fixture.QPI);
             EvGetCommandDefn (AStr "QPI") (Ok "QPI");
             EvSendAndReceive [ArgBytes Fixture.QPI; ArgDefn "QPI"]
               (Ok (VBytes Fixture.QPI));
             EvDecode Fixture.QPI (ABool false) (AStr "QPI")
               (Ok (VDict {[ "QPI" := [AStr "PI30"; AStr ""];
                             "mode" := [AStr "QPI"; AStr ""] ]}))] |}).
Proof.
  eapply (jk24s_encode_send_decode_test
           (Fixture.device jk24s (Some Fixture.pi30) (Some Fixture.test_io))
           Fixture.pi30 Fixture.test_io);
    reflexivity.
Defined.
